(** * pdf-notes-app: outline recovery and list re-indentation

    A shallow embedding of [convert_pdf_to_docx.py] and [word_reindent.py].

    - A Python [str] is the list of its Unicode code points.
    - A Python [float] is the rational number it stands for ([Qc]). The
      indent encoding and the word ratio of a line are computed without
      rounding: on the values they work with (lengths that are whole
      twips, counts of at most 80 characters) the float result and the
      exact one agree. The clustering of the bullet offsets is given
      twice: without rounding, and in [Convert.Rounded] over float
      operations that round as the program's do.
    - A document is the list of its body paragraphs, in order; a
      paragraph holds its runs and, when it was read from a file, its
      hyperlinks; python-docx lengths are integers in English Metric
      Units. *)

From Stdlib Require Import QArith Qcanon Qcabs Qabs Qround Lqa.
From Stdlib Require Import Strings.String Strings.Ascii.
From stdpp Require Import base numbers list sorting.

(** ** Python strings *)

Module PyStr.

Definition char := N.
Definition str := list char.

(** An ASCII literal as a [str]. *)
Definition lit (s : string) : str :=
  (λ a, N_of_ascii a) <$> list_ascii_of_string s.
Arguments lit s%_string.

(** [str.isspace] on one code point, which is also the regex class [\s]
    for [str] patterns. *)
Definition isspace (c : char) : bool :=
  ((9 <=? c) && (c <=? 13) || (28 <=? c) && (c <=? 32)
   || (c =? 133) || (c =? 160) || (c =? 5760)
   || (8192 <=? c) && (c <=? 8202)
   || (c =? 8232) || (c =? 8233) || (c =? 8239) || (c =? 8287)
   || (c =? 12288))%N.

Fixpoint lstrip (s : str) : str :=
  match s with
  | c :: s' => if isspace c then lstrip s' else s
  | [] => []
  end.

Definition rstrip (s : str) : str := reverse (lstrip (reverse s)).

Definition strip (s : str) : str := rstrip (lstrip s).

Definition str_eqb (s t : str) : bool := bool_decide (s = t).

(** [bool(s.strip())] *)
Definition nonblank (s : str) : bool := negb (bool_decide (strip s = [])).

(** Some character of [s] is not whitespace. *)
Definition has_ink (s : str) : bool := existsb (λ c, negb (isspace c)) s.

Fixpoint startswith (s p : str) : bool :=
  match p, s with
  | [], _ => true
  | a :: p', b :: s' => (a =? b)%N && startswith s' p'
  | _ :: _, [] => false
  end.

Definition endswith (s p : str) : bool := startswith (reverse s) (reverse p).

(** [c in s] for a one-character [c]. *)
Definition contains (c : char) (s : str) : bool := existsb (N.eqb c) s.

(** Line boundaries of [str.splitlines]. *)
Definition is_linebreak (c : char) : bool :=
  ((10 <=? c) && (c <=? 13) || (28 <=? c) && (c <=? 30)
   || (c =? 133) || (c =? 8232) || (c =? 8233))%N.

(** [str.splitlines()]: [cur] is the line being read, kept reversed; a
    carriage return directly followed by a line feed is one boundary. *)
Fixpoint splitlines_go (cur : str) (s : str) : list str :=
  match s with
  | [] => match cur with [] => [] | _ => [reverse cur] end
  | c :: s' =>
      if is_linebreak c then
        match s' with
        | d :: s'' =>
            if (c =? 13)%N && (d =? 10)%N
            then reverse cur :: splitlines_go [] s''
            else reverse cur :: splitlines_go [] s'
        | [] => [reverse cur]
        end
      else splitlines_go (c :: cur) s'
  end.

Definition splitlines (s : str) : list str := splitlines_go [] s.

(** [re.sub(r"\s+", " ", s)]: every maximal run of whitespace becomes one
    space; [in_run] tells that the run's space has been written already. *)
Fixpoint collapse_ws_go (in_run : bool) (s : str) : str :=
  match s with
  | [] => []
  | c :: s' =>
      if isspace c then
        if in_run then collapse_ws_go true s'
        else 32%N :: collapse_ws_go true s'
      else c :: collapse_ws_go false s'
  end.

Definition collapse_ws (s : str) : str := collapse_ws_go false s.

(** The part of Python's Unicode database the programs consult. It belongs
    to the interpreter, not to the repository, so it is a parameter. *)
Class UnicodeData := {
  (** general category Nd: the regex class [\d] *)
  uni_isdecimal : char → bool;
  (** the three case flags read by [str.isupper] *)
  uni_isupper : char → bool;
  uni_islower : char → bool;
  uni_istitle : char → bool;
  (** [str.lower()] *)
  str_lower : str → str;
}.

Section WithUnicode.
Context `{UnicodeData}.

(** [str.isupper()]: no lower-case or title-case character and at least
    one upper-case one; a one-character string is looked up directly. *)
Definition isupper (s : str) : bool :=
  match s with
  | [c] => uni_isupper c
  | _ => forallb (λ c, negb (uni_islower c || uni_istitle c)) s
         && existsb uni_isupper s
  end.

(** [re.fullmatch(r"\d+", s)] as a truth value. *)
Definition all_digits (s : str) : bool :=
  match s with
  | [] => false
  | _ => forallb uni_isdecimal s
  end.
End WithUnicode.

(** A table that agrees with CPython on U+0000..U+00FF and on the basic
    Russian alphabet U+0410..U+044F; every other code point is taken to be
    caseless and not a digit. It serves to run the functions on examples
    written in those ranges. *)
Definition basic_isupper (c : char) : bool :=
  ((65 <=? c) && (c <=? 90) || (192 <=? c) && (c <=? 214)
   || (216 <=? c) && (c <=? 222) || (1040 <=? c) && (c <=? 1071))%N.

Definition basic_islower (c : char) : bool :=
  ((97 <=? c) && (c <=? 122) || (c =? 170) || (c =? 181) || (c =? 186)
   || (223 <=? c) && (c <=? 246) || (248 <=? c) && (c <=? 255)
   || (1072 <=? c) && (c <=? 1103))%N.

Definition basic_lower_char (c : char) : char :=
  (if (65 <=? c) && (c <=? 90) || (192 <=? c) && (c <=? 214)
      || (216 <=? c) && (c <=? 222) || (1040 <=? c) && (c <=? 1071)
   then c + 32 else c)%N.

Definition basic_unicode : UnicodeData := {|
  uni_isdecimal c := ((48 <=? c) && (c <=? 57))%N;
  uni_isupper := basic_isupper;
  uni_islower := basic_islower;
  uni_istitle _ := false;
  str_lower s := basic_lower_char <$> s;
|}.

End PyStr.

(** ** Python numbers and python-docx lengths *)

Module PyNum.
Local Open Scope Qc_scope.

Definition half : Qc := Q2Qc (1 # 2).

(** [int(x)] on a float: truncation toward zero. *)
Definition py_int (x : Qc) : Z :=
  if bool_decide (0 ≤ x) then Qfloor x else Qceiling x.

(** [round(x)] with one argument: the nearest integer, ties to the even
    one. *)
Definition py_round (x : Qc) : Z :=
  let f := Qfloor x in
  let d := x - Qc_of_Z f in
  if bool_decide (d < half) then f
  else if bool_decide (half < d) then (f + 1)%Z
  else if Z.even f then f else (f + 1)%Z.

(** python-docx keeps a [Length] as an integer count of English Metric
    Units: 12700 to the point, 635 to the twip. *)
Definition Pt (points : Qc) : Z := py_int (points * Qc_of_Z 12700).
Definition pt (emu : Z) : Qc := Qc_of_Z emu / Qc_of_Z 12700.
Definition twips (emu : Z) : Z := py_round (Qc_of_Z emu / Qc_of_Z 635).
Definition Twips (t : Z) : Z := (t * 635)%Z.

End PyNum.

(** ** The paragraph stream of a document *)

Module Docx.
Import PyStr PyNum.

Record Run := mkRun {
  text : str;
  bold : option bool;
  italic : option bool;
  underline : option bool;
  font_name : option str;
  font_size : option Z;
}.

(** A hyperlink of a paragraph read from a file. It stands in front of the
    run of index [link_before], or behind the last run when there is no
    such run. Its text is part of [p.text] in python-docx 1.0 and later;
    its runs are no part of [p.runs]. Earlier versions leave hyperlinks
    out of [p.text] as well: for them every paragraph is one without
    hyperlinks. *)
Record Hyperlink := mkHyperlink {
  link_before : nat;
  link_text : str;
}.

(** [runs] are the runs [p.runs] lists, the direct children of the
    paragraph. Indents are lengths in EMU; [numPr] is the pair
    (ilvl, numId). *)
Record Paragraph := mkParagraph {
  pStyle : option str;
  runs : list Run;
  hyperlinks : list Hyperlink;
  left_indent : option Z;
  first_line_indent : option Z;
  right_indent : option Z;
  space_before : option Z;
  space_after : option Z;
  line_spacing : option Z;
  numPr : option (Z * Z);
}.

(** [p.style.name]: a paragraph without a style of its own has the
    default paragraph style, "Normal" in documents made by python-docx. *)
Definition style_name (p : Paragraph) : str :=
  default (lit "Normal") (pStyle p).

(** The text of the runs [rs], the first of which has index [i], and of
    the hyperlinks among [ls] that stand at index [i] or later, in document
    order. *)
Fixpoint text_from (i : nat) (rs : list Run) (ls : list Hyperlink) : str :=
  match rs with
  | [] =>
      concat (link_text <$>
                List.filter (λ l, bool_decide (i ≤ link_before l)) ls)
  | r :: rs' =>
      concat (link_text <$>
                List.filter (λ l, bool_decide (link_before l = i)) ls)
      ++ text r ++ text_from (S i) rs' ls
  end.

(** [p.text]: the text of the runs and hyperlinks of the paragraph, in
    document order. *)
Definition paragraph_text (p : Paragraph) : str :=
  text_from 0 (runs p) (hyperlinks p).

(** An indent is written to the document in whole twips and read back
    from there; a negative first-line indent is kept as a hanging indent. *)
Definition stored (v : Z) : Z := Twips (twips v).

Definition set_left_indent (v : option Z) (p : Paragraph) : Paragraph :=
  mkParagraph (pStyle p) (runs p) (hyperlinks p) (stored <$> v)
    (first_line_indent p) (right_indent p) (space_before p) (space_after p)
    (line_spacing p) (numPr p).

Definition set_first_line_indent (v : option Z) (p : Paragraph) : Paragraph :=
  let w := (λ x, if (x <? 0)%Z then (- stored (- x))%Z else stored x) <$> v in
  mkParagraph (pStyle p) (runs p) (hyperlinks p) (left_indent p) w
    (right_indent p) (space_before p) (space_after p) (line_spacing p)
    (numPr p).

Definition set_style (name : str) (p : Paragraph) : Paragraph :=
  mkParagraph (Some name) (runs p) (hyperlinks p) (left_indent p)
    (first_line_indent p) (right_indent p) (space_before p) (space_after p)
    (line_spacing p) (numPr p).

Definition set_runs (rs : list Run) (p : Paragraph) : Paragraph :=
  mkParagraph (pStyle p) rs (hyperlinks p) (left_indent p)
    (first_line_indent p) (right_indent p) (space_before p) (space_after p)
    (line_spacing p) (numPr p).

Definition set_numPr (n : option (Z * Z)) (p : Paragraph) : Paragraph :=
  mkParagraph (pStyle p) (runs p) (hyperlinks p) (left_indent p)
    (first_line_indent p) (right_indent p) (space_before p) (space_after p)
    (line_spacing p) n.

Definition new_run (t : str) : Run := mkRun t None None None None None.

(** [run.font.name = "Aptos (Body)"; run.font.size = Pt(12)] *)
Definition aptos_12 (r : Run) : Run :=
  mkRun (text r) (bold r) (italic r) (underline r)
    (Some (lit "Aptos (Body)")) (Some (Pt (Qc_of_Z 12))).

Definition set_bold (b : option bool) (r : Run) : Run :=
  mkRun (text r) b (italic r) (underline r) (font_name r) (font_size r).

(** [doc.add_paragraph(text, style)]: the text, when not empty, is one
    run. *)
Definition add_paragraph (t : str) (style : option str) : Paragraph :=
  mkParagraph style (match t with [] => [] | _ => [new_run t] end) []
    None None None None None None None.

#[export] Instance Hyperlink_eq_dec : EqDecision Hyperlink.
Proof. solve_decision. Defined.
#[export] Instance Run_eq_dec : EqDecision Run.
Proof. solve_decision. Defined.
#[export] Instance Paragraph_eq_dec : EqDecision Paragraph.
Proof. solve_decision. Defined.

End Docx.

(** ** convert_pdf_to_docx.py *)

Module Convert.
Import PyStr PyNum Docx.
Local Open Scope Qc_scope.

(** The recognised bullet glyphs, by code point, in the order of
    [BULLET_CHARS]: four arrows, bullet, white bullet, middle dot, bullet
    operator, triangular bullet, hyphen bullet, six squares, hyphen-minus,
    en dash, em dash. *)
Definition BULLET_CHARS : list char :=
  [10147; 10148; 10146; 10132;
   8226; 9702; 183; 8729; 8227; 8259;
   9642; 9632; 9724; 9726; 9723; 9633;
   45; 8211; 8212]%N.

Definition is_bullet_char (c : char) : bool := existsb (N.eqb c) BULLET_CHARS.

(** [BULLET_RE.match(s)], giving group 1. The pattern is
    [^\s*(?:glyph)\s+(.*\S)\s*$]: leading whitespace, one glyph, at least
    one whitespace character, then the group, which runs from the next
    character that is not whitespace to the last such character of [s] and
    may not cross a line feed, since [.] does not match one. *)
Definition BULLET_RE_match (s : str) : option str :=
  match lstrip s with
  | c :: rest =>
      if is_bullet_char c then
        match rest with
        | w :: _ =>
            if isspace w then
              let body := rstrip (lstrip rest) in
              match body with
              | [] => None
              | _ => if contains 10%N body then None else Some body
              end
            else None
        | [] => None
        end
      else None
  | [] => None
  end.

(** [re.findall(r"[A-Za-z']+", s)]; [cur] is the run being read, reversed. *)
Definition is_word_char (c : char) : bool :=
  ((65 <=? c) && (c <=? 90) || (97 <=? c) && (c <=? 122) || (c =? 39))%N.

Fixpoint findall_words_go (cur : str) (s : str) : list str :=
  match s with
  | [] => match cur with [] => [] | _ => [reverse cur] end
  | c :: s' =>
      if is_word_char c then findall_words_go (c :: cur) s'
      else match cur with
           | [] => findall_words_go [] s'
           | _ => reverse cur :: findall_words_go [] s'
           end
  end.

Definition findall_words (s : str) : list str := findall_words_go [] s.

Definition Qc_of_nat (n : nat) : Qc := Qc_of_Z (Z.of_nat n).

Section Classifier.
Context `{UnicodeData}.

Definition is_footer_noise (line : str) : bool :=
  let l := strip line in
  match l with
  | [] => true
  | _ =>
      if all_digits l then true
      else if contains 64%N l then true
      else if startswith (str_lower l) (lit "further reading") then true
      else false
  end.

(** [sum(1 for w in words if w[0].isupper())] *)
Definition count_capitalized (words : list str) : nat :=
  length (List.filter (λ w, isupper (take 1 w)) words).

Definition looks_like_heading (line : str) : bool :=
  let l := strip line in
  match l with
  | [] => false
  | _ =>
      if bool_decide (is_Some (BULLET_RE_match l)) then false
      else if 80 <? length l then false
      else if endswith l (lit ":") then true
      else
        let words := findall_words l in
        match words with
        | [] => false
        | _ =>
            if isupper l && (length l <=? 60) then true
            else
              let title_like :=
                Qc_of_nat (count_capitalized words)
                / Qc_of_nat (max 1 (length words)) in
              if bool_decide (Q2Qc (7 # 10) ≤ title_like)
                 && (length l <=? 70)
              then true else false
        end
  end.

Definition normalize_lines (text : str) : list str :=
  List.filter (λ ln, negb (bool_decide (ln = [])) && negb (is_footer_noise ln))
    ((λ ln, collapse_ws (strip ln)) <$> splitlines text).

End Classifier.

Definition bullet_text (line : str) : option str :=
  strip <$> BULLET_RE_match line.

(** *** Bullet levels from glyph coordinates *)

Definition _is_bullet_start_text (t : str) : bool :=
  match t with
  | [] => false
  | _ =>
      match lstrip t with
      | c :: _ => is_bullet_char c
      | [] => false
      end
  end.

(** The part of [page.get_text("dict")] the extractor reads. A bounding
    box is (x0, y0, x1, y1). A span's box is indexed without a check, so
    every span has one; a line's box may be missing; a span without
    "text" counts as one with empty text, a block without "lines" as one
    with no lines. *)
Definition BBox : Type := Qc * Qc * Qc * Qc.

Definition bbox_x0 (b : BBox) : Qc := b.1.1.1.
Definition bbox_y0 (b : BBox) : Qc := b.1.1.2.

Record Span := mkSpan {
  span_text : str;
  span_bbox : BBox;
}.

Record Line := mkLine {
  line_spans : list Span;
  line_bbox : option BBox;
}.

Record Block := mkBlock {
  block_type : option Z;
  block_lines : list Line;
}.

(** [first in BULLET_CHARS] for a string [first] of at most one
    character. *)
Definition in_bullet_chars (first : str) : bool :=
  match first with
  | c :: [] => is_bullet_char c
  | _ => false
  end.

(** The loop over the spans of a bullet line, giving [bullet_x]. *)
Fixpoint find_bullet_x (spans : list Span) : option Qc :=
  match spans with
  | [] => None
  | s :: rest =>
      let st := span_text s in
      match st with
      | [] => find_bullet_x rest
      | _ =>
          if negb (nonblank st) then find_bullet_x rest
          else if match lstrip st with
                  | c :: _ => is_bullet_char c
                  | [] => false
                  end
          then Some (bbox_x0 (span_bbox s))
          else if in_bullet_chars (take 1 (lstrip st))
          then Some (bbox_x0 (span_bbox s))
          else find_bullet_x rest
      end
  end.

(** The body of the loop over the lines of a text block: the triple
    (y0, x0, bullet_x) the line adds to [hits], if it adds one. *)
Definition line_hit (line : Line) : option (Qc * Qc * Qc) :=
  match line_spans line with
  | [] => None
  | s0 :: _ =>
      let line_text := concat (span_text <$> line_spans line) in
      if negb (_is_bullet_start_text line_text) then None
      else
        let bullet_x :=
          match find_bullet_x (line_spans line) with
          | Some x => Some x
          | None => bbox_x0 <$> line_bbox line
          end in
        match bullet_x with
        | None => None
        | Some bx =>
            let bbox := default (span_bbox s0) (line_bbox line) in
            Some (bbox_y0 bbox, bbox_x0 bbox, bx)
        end
  end.

Definition page_hits (blocks : list Block) : list (Qc * Qc * Qc) :=
  blocks ≫= λ block,
    if bool_decide (block_type block = Some 0%Z)
    then omap line_hit (block_lines block)
    else [].

(** The order of the sort key [(t[0], t[1])]. *)
Definition key_lt (a b : Qc * Qc * Qc) : bool :=
  bool_decide (a.1.1 < b.1.1)
  || bool_decide (a.1.1 = b.1.1) && bool_decide (a.1.2 < b.1.2).

(** [hits.sort(key=...)]: the sort is stable, so a hit goes in front of
    the first one it is not greater than. *)
Fixpoint insert_hit (h : Qc * Qc * Qc) (l : list (Qc * Qc * Qc))
    : list (Qc * Qc * Qc) :=
  match l with
  | [] => h :: []
  | h' :: l' => if key_lt h' h then h' :: insert_hit h l' else h :: l
  end.

Definition sort_hits (hits : list (Qc * Qc * Qc)) : list (Qc * Qc * Qc) :=
  foldr insert_hit [] hits.

Definition _extract_bullet_x_positions (blocks : list Block) : list Qc :=
  (λ h, h.2) <$> sort_hits (page_hits blocks).

(** The clustering on the exact values of the offsets, with no operation
    rounded; [Rounded] below is the same code with the rounding of the
    program's float operations.

    One step of the clustering loop: [x] joins the last cluster when it is
    within [tol] of that cluster's last member, and opens a new cluster
    otherwise. *)
Definition cluster_step (tol : Qc) (clusters : list (list Qc)) (x : Qc)
    : list (list Qc) :=
  match last clusters ≫= last with
  | Some y =>
      if bool_decide (Qcabs (x - y) ≤ tol)
      then alter (λ c, c ++ [x]) (length clusters - 1)%nat clusters
      else clusters ++ ((x :: []) :: [])
  | None => clusters ++ ((x :: []) :: [])
  end.

(** [sum(c) / len(c)] *)
Definition mean (c : list Qc) : Qc :=
  foldl Qcplus (Q2Qc 0) c / Qc_of_nat (length c).

(** [sorted] and [list.sort] on floats. *)
Definition sorted (xs : list Qc) : list Qc := merge_sort Qcle xs.

Definition clusters_of (xs : list Qc) (tol : Qc) : list (list Qc) :=
  match sorted xs with
  | [] => []
  | x0 :: rest => foldl (cluster_step tol) ((x0 :: []) :: []) rest
  end.

Definition _cluster_x_positions (xs : list Qc) (tol : Qc) : list Qc :=
  match xs with
  | [] => []
  | _ => sorted (mean <$> clusters_of xs tol)
  end.

(** [min(range(len(keys)), key=lambda i: keys[i])]: the first index whose
    key is least. *)
Fixpoint min_index_go (best : nat) (best_key : Qc) (i : nat) (keys : list Qc)
    : nat :=
  match keys with
  | [] => best
  | k :: ks =>
      if bool_decide (k < best_key) then min_index_go i k (S i) ks
      else min_index_go best best_key (S i) ks
  end.

Definition min_index (keys : list Qc) : nat :=
  match keys with
  | [] => 0%nat
  | k :: ks => min_index_go 0 k 1 ks
  end.

Definition nearest_center (centers : list Qc) (x : Qc) : nat :=
  min_index ((λ c, Qcabs (x - c)) <$> centers).

Definition _levels_for_bullets_on_page (bullet_xs : list Qc) : list Z :=
  match bullet_xs with
  | [] => []
  | _ =>
      let centers := _cluster_x_positions bullet_xs (Q2Qc 4) in
      (λ x, Z.max 0 (Z.min (Z.of_nat (nearest_center centers x)) 2))
        <$> bullet_xs
  end.

(** *** The clustering in float arithmetic

    The definitions above compute with the exact values of the offsets.
    The program computes in floats: the difference in the tolerance test
    and in the distance to a centre is rounded, and so are the sum and
    the quotient that give a centre. The module [Rounded] is the same
    code over float operations. A float is the rational number it stands
    for, so comparing, sorting and [abs] are exact; infinities and NaN,
    which page coordinates do not reach, are left out. *)

Module Rounded.

(** The three float operations that round: [fsub x y] is [x - y],
    [fsum c] is [sum(c)] and [fdiv s n] is [s / n] for the length [n] of
    a list. Nothing is assumed of them. *)
Class FloatOps := {
  fsub : Qc → Qc → Qc;
  fsum : list Qc → Qc;
  fdiv : Qc → nat → Qc;
}.

Section WithFloatOps.
Context `{FloatOps}.

Definition cluster_step (tol : Qc) (clusters : list (list Qc)) (x : Qc)
    : list (list Qc) :=
  match last clusters ≫= last with
  | Some y =>
      if bool_decide (Qcabs (fsub x y) ≤ tol)
      then alter (λ c, c ++ [x]) (length clusters - 1)%nat clusters
      else clusters ++ ((x :: []) :: [])
  | None => clusters ++ ((x :: []) :: [])
  end.

(** [sum(c) / len(c)] *)
Definition mean (c : list Qc) : Qc := fdiv (fsum c) (length c).

Definition clusters_of (xs : list Qc) (tol : Qc) : list (list Qc) :=
  match sorted xs with
  | [] => []
  | x0 :: rest => foldl (cluster_step tol) ((x0 :: []) :: []) rest
  end.

Definition _cluster_x_positions (xs : list Qc) (tol : Qc) : list Qc :=
  match xs with
  | [] => []
  | _ => sorted (mean <$> clusters_of xs tol)
  end.

Definition nearest_center (centers : list Qc) (x : Qc) : nat :=
  min_index ((λ c, Qcabs (fsub x c)) <$> centers).

Definition _levels_for_bullets_on_page (bullet_xs : list Qc) : list Z :=
  match bullet_xs with
  | [] => []
  | _ =>
      let centers := _cluster_x_positions bullet_xs (Q2Qc 4) in
      (λ x, Z.max 0 (Z.min (Z.of_nat (nearest_center centers x)) 2))
        <$> bullet_xs
  end.

(** Level [lvl] is the rank, by ascending centroid, of a cluster that
    holds offset [x], capped at 2. *)
Definition level_of_own_cluster (xs : list Qc) (x : Qc) (lvl : Z) : Prop :=
  ∃ c k, c ∈ clusters_of xs (Q2Qc 4) ∧ x ∈ c ∧
         _cluster_x_positions xs (Q2Qc 4) !! k = Some (mean c) ∧
         lvl = Z.min (Z.of_nat k) 2.

(** Neighbours in cluster [c] pass the tolerance test: their float
    difference is at most [tol]. *)
Definition chained (tol : Qc) (c : list Qc) : Prop :=
  ∀ i a b, c !! i = Some a → c !! S i = Some b → Qcabs (fsub b a) ≤ tol.

(** The last member of a cluster and the first member of the next one
    fail the tolerance test. *)
Definition separated (tol : Qc) (cl : list (list Qc)) : Prop :=
  ∀ k c1 c2 a b,
    cl !! k = Some c1 → cl !! S k = Some c2 →
    last c1 = Some a → head c2 = Some b → tol < Qcabs (fsub b a).

(** What the clustering loop keeps true of its list of clusters. *)
Definition cluster_inv (tol : Qc) (cl : list (list Qc)) : Prop :=
  cl ≠ [] ∧ Forall (λ c, c ≠ []) cl ∧ Forall (chained tol) cl ∧
  separated tol cl.

End WithFloatOps.

(** Arithmetic without rounding: the definitions outside this module. *)
Definition exact : FloatOps :=
  {| fsub := Qcminus;
     fsum := foldl Qcplus (Q2Qc 0);
     fdiv := λ s n, s / Qc_of_nat n |}.

(** [2 ** e] *)
Definition pow2 (e : Z) : Qc :=
  if bool_decide (0 ≤ e)%Z then Qc_of_Z (2 ^ e)
  else / Qc_of_Z (2 ^ (- e)).

(** The exponent [e] of a number other than 0: [2 ** e <= abs(q)] and
    [abs(q) < 2 ** (e + 1)]. *)
Definition ilog2 (q : Qc) : Z :=
  let e := (Z.log2 (Z.abs (Qnum q)) - Z.log2 (Zpos (Qden q)))%Z in
  if bool_decide (pow2 e ≤ Qcabs q) then e else (e - 1)%Z.

(** The binary64 float nearest to [q], ties to the even significand: 53
    bits of significand, and the fixed spacing [2 ** -1074] below
    [2 ** -1022]. Overflow is left out. *)
Definition round_binary64 (q : Qc) : Qc :=
  if bool_decide (q = Q2Qc 0) then q
  else
    let ulp := pow2 (Z.max (ilog2 q) (-1022) - 52) in
    Qc_of_Z (py_round (q / ulp)) * ulp.

(** The arithmetic of CPython: every operation gives the float nearest to
    the exact result. [sum] adds from left to right, as it does up to
    Python 3.11; later versions compensate the rounding errors of the
    additions. *)
Definition binary64 : FloatOps :=
  {| fsub := λ x y, round_binary64 (x - y);
     fsum := foldl (λ s x, round_binary64 (s + x)) (Q2Qc 0);
     fdiv := λ s n, round_binary64 (s / Qc_of_nat n) |}.

End Rounded.

(** *** The page assembler of [convert] *)

(** [add_bold_line]: a paragraph with one bold run. *)
Definition add_bold_line (doc : list Paragraph) (t : str) : list Paragraph :=
  doc ++ [set_runs [aptos_12 (set_bold (Some true) (new_run t))]
            (add_paragraph [] None)].

(** The style of a level already clamped to 0..2: "List Bullet" for 0 and
    [f"List Bullet {level + 1}"] otherwise. *)
Definition bullet_style (level : Z) : str :=
  if (level =? 0)%Z then lit "List Bullet"
  else if (level =? 1)%Z then lit "List Bullet 2"
  else lit "List Bullet 3".

Definition add_bullet (doc : list Paragraph) (t : str) (level : Z)
    : list Paragraph :=
  let level := Z.max 0 (Z.min level 2) in
  let p := add_paragraph t (Some (bullet_style level)) in
  doc ++ [set_runs (aptos_12 <$> runs p) p].

(** Truth value of an optional string: [None] and the empty string are
    false. *)
Definition truthy (s : option str) : bool :=
  match s with
  | Some (_ :: _) => true
  | _ => false
  end.

(** The variables the loop over a page's lines updates. *)
Record PageState := mkPageState {
  doc : list Paragraph;
  current_bullet : option str;
  current_level : Z;
  bullet_level_idx : nat;
}.

Definition flush_bullet (st : PageState) : PageState :=
  if truthy (current_bullet st) then
    mkPageState
      (add_bullet (doc st) (strip (default [] (current_bullet st)))
         (current_level st))
      None 0 (bullet_level_idx st)
  else st.

Section Assembler.
Context `{UnicodeData}.

(** The title loop: the first line that is not a bullet and is a heading
    or at most 60 characters long. *)
Fixpoint find_title (lines : list str) : option str :=
  match lines with
  | [] => None
  | ln :: rest =>
      if bool_decide (is_Some (bullet_text ln)) then find_title rest
      else if looks_like_heading ln || (length ln <=? 60) then Some ln
      else find_title rest
  end.

(** [title.strip().lower() in {"outline", "summary"}] *)
Definition is_skipped_title (title : str) : bool :=
  let t := str_lower (strip title) in
  str_eqb t (lit "outline") || str_eqb t (lit "summary").

(** The body of the loop over the lines of a page. *)
Definition line_step (title : option str) (bullet_levels : list Z)
    (force_all_lines_bullets : bool) (st : PageState) (ln : str)
    : PageState :=
  if truthy title && bool_decide (Some ln = title) then st
  else
    match bullet_text ln with
    | Some bt =>
        let st := flush_bullet st in
        match bullet_levels !! bullet_level_idx st with
        | Some lvl =>
            mkPageState (doc st) (Some bt) lvl (S (bullet_level_idx st))
        | None => mkPageState (doc st) (Some bt) 0 (bullet_level_idx st)
        end
    | None =>
        if looks_like_heading ln then
          let st := flush_bullet st in
          mkPageState (add_bold_line (doc st) ln) (current_bullet st)
            (current_level st) (bullet_level_idx st)
        else if force_all_lines_bullets then
          let st := flush_bullet st in
          mkPageState (doc st) (Some ln) 0 (bullet_level_idx st)
        else if truthy (current_bullet st) then
          mkPageState (doc st)
            (Some (default [] (current_bullet st) ++ lit " " ++ ln))
            (current_level st) (bullet_level_idx st)
        else st
    end.

(** The loop over the lines of a page, started on document [d]. *)
Definition page_loop (title : option str) (bullet_levels : list Z)
    (force_all_lines_bullets : bool) (d : list Paragraph) (lines : list str)
    : PageState :=
  foldl (line_step title bullet_levels force_all_lines_bullets)
    (mkPageState d None 0 0) lines.

(** A page as the extractor hands it over: its plain text and the
    horizontal offsets of its bullet glyphs in reading order. *)
Record Page := mkPage {
  page_text : str;
  page_bullet_xs : list Qc;
}.

(** One iteration of the loop over the pages. *)
Definition convert_page (force_all_lines_bullets : bool)
    (d : list Paragraph) (page : Page) : list Paragraph :=
  let lines := normalize_lines (page_text page) in
  match lines with
  | [] => d
  | _ =>
      let bullet_levels := _levels_for_bullets_on_page (page_bullet_xs page) in
      let title := find_title lines in
      if truthy title && is_skipped_title (default [] title) then d
      else
        let d := if truthy title then add_bold_line d (default [] title)
                 else d in
        let st :=
          page_loop title bullet_levels force_all_lines_bullets d lines in
        doc (flush_bullet st) ++ [add_paragraph [] None]
  end.

End Assembler.

(** *** [postprocess_formatting] *)

(** The loop over the runs in [is_heading]: every run with text is bold,
    and there is one. *)
Fixpoint all_text_runs_bold (any_nonempty_run : bool) (rs : list Run) : bool :=
  match rs with
  | [] => any_nonempty_run
  | r :: rs' =>
      if nonblank (text r) then
        if bool_decide (bold r = Some true) then all_text_runs_bold true rs'
        else false
      else all_text_runs_bold any_nonempty_run rs'
  end.

Definition is_bullet (p : Paragraph) : bool :=
  startswith (style_name p) (lit "List").

Definition is_heading (p : Paragraph) : bool :=
  if negb (nonblank (paragraph_text p)) then false
  else if is_bullet p then false
  else all_text_runs_bold false (runs p).

Definition bullet_level_from_style_name (name : str) : Z :=
  if str_eqb name (lit "List Bullet") then 0
  else if str_eqb name (lit "List Bullet 2") then 1
  else if str_eqb name (lit "List Bullet 3") then 2
  else 0.

Definition HANG : Z := Pt (Q2Qc 18).
Definition STEP : Z := Pt (Q2Qc 18).
Definition BASE_LEFT : Z := Pt (Q2Qc 18).

Definition apply_level_indent (p : Paragraph) (level : Z) : Paragraph :=
  let level := Z.max 0 (Z.min level 2) in
  let p := set_left_indent
             (Some (Pt (pt BASE_LEFT + pt STEP * Qc_of_Z level))) p in
  set_first_line_indent (Some (Pt (- pt HANG))) p.

Definition enforce_aptos_12 (p : Paragraph) : Paragraph :=
  set_runs (aptos_12 <$> runs p) p.

(** The inner loop of step (1): is there a bullet below before the next
    heading? [below] is [paras[i+1:]]. *)
Fixpoint has_bullet (below : list Paragraph) : bool :=
  match below with
  | [] => false
  | nxt :: below' =>
      if is_heading nxt then false
      else if is_bullet nxt then true
      else has_bullet below'
  end.

(** The outer loop of step (1), started at index [i]. *)
Fixpoint to_delete_from (i : nat) (paras : list Paragraph) : list nat :=
  match paras with
  | [] => []
  | p :: below =>
      if is_heading p && negb (has_bullet below)
      then i :: to_delete_from (S i) below
      else to_delete_from (S i) below
  end.

Definition to_delete_idxs (paras : list Paragraph) : list nat :=
  to_delete_from 0 paras.

(** [for i in reversed(to_delete_idxs): remove paras[i]] *)
Definition remove_paragraphs (idxs : list nat) (paras : list Paragraph)
    : list Paragraph :=
  foldl (λ body i, delete i body) paras (reverse idxs).

(** A promoted heading keeps its text runs bold. *)
Definition keep_bold (r : Run) : Run :=
  if nonblank (text r) then set_bold (Some true) r else r.

Definition to_list_bullet (p : Paragraph) (level : Z) : Paragraph :=
  enforce_aptos_12 (apply_level_indent (set_style (lit "List Bullet") p) level).

(** The body of the loop of steps (2) and (3); the first component is
    [in_heading_block]. *)
Definition restyle_step (in_heading_block : bool) (p : Paragraph)
    : bool * Paragraph :=
  if is_heading p then
    let p' := apply_level_indent (set_style (lit "List Bullet") p) 0 in
    (true, enforce_aptos_12 (set_runs (keep_bold <$> runs p') p'))
  else if in_heading_block && is_bullet p then
    let old_level := bullet_level_from_style_name (style_name p) in
    let new_level := Z.min (old_level + 1) 2 in
    (in_heading_block, to_list_bullet p new_level)
  else
    let in_heading_block :=
      if negb (nonblank (paragraph_text p)) then false
      else if negb (is_bullet p) then false
      else in_heading_block in
    if is_bullet p then
      let lvl := bullet_level_from_style_name (style_name p) in
      (in_heading_block, to_list_bullet p lvl)
    else (in_heading_block, enforce_aptos_12 p).

Fixpoint restyle (in_heading_block : bool) (paras : list Paragraph)
    : list Paragraph :=
  match paras with
  | [] => []
  | p :: rest =>
      let '(b, p') := restyle_step in_heading_block p in
      p' :: restyle b rest
  end.

Definition postprocess_formatting (paras : list Paragraph) : list Paragraph :=
  restyle false (remove_paragraphs (to_delete_idxs paras) paras).

(** [convert]: assemble every page, then postprocess. *)
Definition convert `{UnicodeData} (pages : list Page)
    (force_all_lines_bullets : bool) : list Paragraph :=
  postprocess_formatting
    (foldl (convert_page force_all_lines_bullets) [] pages).

(** *** Vocabulary of the specification *)

Section SpecVocabulary.
Context `{UnicodeData}.

(** The heading rule, on a trimmed line [l]: not a bullet line, at most 80
    characters, and one of the three signals. The share of capitalised
    words is taken over the runs of letters and apostrophes, and a line
    needs such a run to count as upper-case or as title-like. *)
Definition heading_rule (l : str) : Prop :=
  BULLET_RE_match l = None ∧
  (length l ≤ 80)%nat ∧
  (endswith l (lit ":") = true ∨
   (findall_words l ≠ [] ∧
    ((isupper l = true ∧ (length l ≤ 60)%nat) ∨
     ((7 * length (findall_words l)
         ≤ 10 * count_capitalized (findall_words l))%nat
      ∧ (length l ≤ 70)%nat)))).

(** The rule without the demand for a word. *)
Definition heading_rule_any_script (l : str) : Prop :=
  BULLET_RE_match l = None ∧
  (length l ≤ 80)%nat ∧
  (endswith l (lit ":") = true ∨
   (isupper l = true ∧ (length l ≤ 60)%nat) ∨
   ((7 * max 1 (length (findall_words l))
       ≤ 10 * count_capitalized (findall_words l))%nat
    ∧ (length l ≤ 70)%nat)).

(** The page's title is "Outline" or "Summary", whatever its case. *)
Definition titled_outline_or_summary (page : Page) : Prop :=
  ∃ t, find_title (normalize_lines (page_text page)) = Some t ∧
       (str_lower (strip t) = lit "outline"
        ∨ str_lower (strip t) = lit "summary").

End SpecVocabulary.

(** A paragraph with text. *)
Definition inked (p : Paragraph) : Prop := nonblank (paragraph_text p) = true.

(** What the loop over a page keeps true: everything written since [d0] has
    text, and so has the bullet being collected. *)
Definition page_inv (d0 : list Paragraph) (st : PageState) : Prop :=
  (∃ body, doc st = d0 ++ body ∧ Forall inked body) ∧
  (∀ cb, current_bullet st = Some cb → has_ink cb = true).

(** The blank paragraph that closes a page. *)
Definition BlankSeparator : Paragraph := add_paragraph [] None.

(** What a reader of the stream sees of a paragraph: the text and bold
    flag of every run, the style, and both indents. *)
Definition formatting_view (p : Paragraph)
    : list (str * option bool) * str * option Z * option Z :=
  ((λ r, (text r, bold r)) <$> runs p, style_name p,
   left_indent p, first_line_indent p).

(** What a second run of the postprocessor does to a paragraph of its own
    output: a list paragraph is indented for level 0 again. *)
Definition reset_to_level_0 (p : Paragraph) : Paragraph :=
  if is_bullet p then set_left_indent (Some BASE_LEFT) p else p.

(** The shape of the postprocessor's output: no heading is left, every run
    has the canonical font, and a list paragraph has the one bullet style
    and the hanging indent. *)
Definition canonical (p : Paragraph) : Prop :=
  is_heading p = false ∧
  aptos_12 <$> runs p = runs p ∧
  (is_bullet p = true →
   pStyle p = Some (lit "List Bullet") ∧
   first_line_indent p = Some (- HANG)%Z).

(** Some bullet lies below paragraph [i] with no heading in between. *)
Definition bullet_before_next_heading (paras : list Paragraph) (i : nat)
    : Prop :=
  ∃ j q, (i < j)%nat ∧ paras !! j = Some q ∧ is_bullet q = true ∧
         ∀ k r, (i < k < j)%nat → paras !! k = Some r → is_heading r = false.

(** The stream without the paragraphs at the given indices. *)
Definition omit (idxs : list nat) (paras : list Paragraph) : list Paragraph :=
  snd <$> List.filter (λ ip, negb (bool_decide (fst ip ∈ idxs)))
            (imap (λ i p, (i, p)) paras).

(** [k] is the first index at which [keys] is least. *)
Definition first_least (keys : list Qc) (k : nat) : Prop :=
  ∃ v, keys !! k = Some v ∧
       (∀ j w, keys !! j = Some w → (v ≤ w)%Qc) ∧
       (∀ j w, keys !! j = Some w → (j < k)%nat → (v < w)%Qc).

(** *** More vocabulary *)

(** Line [ln] is whitespace, one bullet glyph, whitespace (at least one
    character), the payload [bt], whitespace; the payload is trimmed, not
    empty and on one line. *)
Definition bullet_line (ln bt : str) : Prop :=
  ∃ pre g mid post,
    ln = pre ++ [g] ++ mid ++ bt ++ post ∧
    has_ink pre = false ∧ is_bullet_char g = true ∧
    mid ≠ [] ∧ has_ink mid = false ∧ has_ink post = false ∧
    bt ≠ [] ∧ strip bt = bt ∧ contains 10%N bt = false.

(** Neighbours in cluster [c] are at most [tol] apart. *)
Definition chained (tol : Qc) (c : list Qc) : Prop :=
  ∀ i a b, c !! i = Some a → c !! S i = Some b → Qcabs (b - a) ≤ tol.

(** The last member of a cluster and the first member of the next one are
    more than [tol] apart. *)
Definition separated (tol : Qc) (cl : list (list Qc)) : Prop :=
  ∀ k c1 c2 a b,
    cl !! k = Some c1 → cl !! S k = Some c2 →
    last c1 = Some a → head c2 = Some b → tol < Qcabs (b - a).

(** What the clustering loop keeps true of its list of clusters. *)
Definition cluster_inv (tol : Qc) (cl : list (list Qc)) : Prop :=
  cl ≠ [] ∧ Forall (λ c, c ≠ []) cl ∧ Forall (chained tol) cl ∧
  separated tol cl.

(** The loop state [st] with document [d] put in front of its own. *)
Definition onto (d : list Paragraph) (st : PageState) : PageState :=
  mkPageState (d ++ doc st) (current_bullet st) (current_level st)
    (bullet_level_idx st).

(** A bullet paragraph of the outermost level. *)
Definition level_0_bullet_or_plain (p : Paragraph) : Prop :=
  is_bullet p = true → style_name p = lit "List Bullet".

Section TitleVocabulary.
Context `{UnicodeData}.

(** A line the title loop accepts. *)
Definition title_candidate (ln : str) : Prop :=
  bullet_text ln = None ∧
  (looks_like_heading ln = true ∨ (length ln ≤ 60)%nat).

End TitleVocabulary.

(** The look the postprocessor gives a paragraph: it is no heading, its
    runs are set in 12 point Aptos, and if it is a list paragraph it has
    the one bullet style, the hanging indent, and the left indent of a
    level between 0 and 2. *)
Definition unified (p : Paragraph) : Prop :=
  is_heading p = false ∧
  Forall (λ r, font_name r = Some (lit "Aptos (Body)") ∧
               font_size r = Some (Pt (Q2Qc 12))) (runs p) ∧
  (is_bullet p = true →
   pStyle p = Some (lit "List Bullet") ∧
   first_line_indent p = Some (Pt (Q2Qc (-18))) ∧
   ∃ L, (0 ≤ L ≤ 2)%Z ∧
        left_indent p = Some (Pt (Q2Qc 18 + Q2Qc 18 * Qc_of_Z L))).

(** What the postprocessor may not change in a run. *)
Definition run_content (r : Run)
    : str * option bool * option bool * option bool :=
  (text r, bold r, italic r, underline r).

(** The stream without its orphan headings. *)
Fixpoint prune (paras : list Paragraph) : list Paragraph :=
  match paras with
  | [] => []
  | p :: below =>
      if is_heading p && negb (has_bullet below) then prune below
      else p :: prune below
  end.

(** A heading as the postprocessor rewrites it. *)
Definition promote_heading (p : Paragraph) : Paragraph :=
  let p' := apply_level_indent (set_style (lit "List Bullet") p) 0 in
  enforce_aptos_12 (set_runs (keep_bold <$> runs p') p').

(** The level a list paragraph's style name stands for. *)
Definition style_level (p : Paragraph) : Z :=
  bullet_level_from_style_name (style_name p).

(** A line of the page dict that starts a bullet: it has spans, and their
    joined text starts, after white space, with a bullet glyph. *)
Definition bullet_start_line (line : Line) : Prop :=
  line_spans line ≠ []
  ∧ _is_bullet_start_text (concat (span_text <$> line_spans line)) = true.

(** [s] is the span of [spans] that holds the glyph: the spans before it
    hold white space only, and its own first character after white space
    is a bullet glyph. *)
Definition glyph_span (spans : list Span) (s : Span) : Prop :=
  ∃ pre post c r,
    spans = pre ++ s :: post
    ∧ Forall (λ s', has_ink (span_text s') = false) pre
    ∧ lstrip (span_text s) = c :: r
    ∧ is_bullet_char c = true.

(** Reading order of two hits: top to bottom, then left to right. *)
Definition key_le (a b : Qc * Qc * Qc) : Prop :=
  a.1.1 < b.1.1 ∨ (a.1.1 = b.1.1 ∧ a.1.2 ≤ b.1.2).

(** The lines of the text blocks of a page, in the order of the dict. *)
Definition text_lines (blocks : list Block) : list Line :=
  blocks ≫= λ block,
    if bool_decide (block_type block = Some 0%Z) then block_lines block
    else [].

End Convert.

(** ** word_reindent.py *)

Module Reindent.
Import PyStr PyNum Docx.
Local Open Scope Qc_scope.

Definition set_paragraph_numbering (p : Paragraph) (num_id ilvl : Z)
    : Paragraph :=
  let ilvl := Z.max 0 (Z.min ilvl 8) in
  set_numPr (Some (ilvl, num_id)) p.

Definition clear_direct_paragraph_formatting (p : Paragraph) : Paragraph :=
  mkParagraph (pStyle p) (runs p) (hyperlinks p) None None None None None None
    (numPr p).

(** The run a copy adds to the destination paragraph. *)
Definition plain_copy (t : str) (it ul : option bool) : Run :=
  mkRun t (Some false) it ul (Some (lit "Aptos (Body)")) (Some (Pt (Q2Qc 12))).

Definition copy_runs_force_not_bold (src_p dst_p : Paragraph) : Paragraph :=
  match runs src_p with
  | [] =>
      match paragraph_text src_p with
      | [] => dst_p
      | t => set_runs (runs dst_p ++ [plain_copy t None None]) dst_p
      end
  | rs =>
      set_runs
        (runs dst_p ++
           ((λ r0, plain_copy (text r0) (italic r0) (underline r0))
              <$> List.filter (λ r0, negb (bool_decide (text r0 = []))) rs))
        dst_p
  end.

Definition is_list_like (src_p : Paragraph) : bool :=
  if startswith (style_name src_p) (lit "List") then true
  else
    match first_line_indent src_p, left_indent src_p with
    | Some fl, Some l =>
        bool_decide (pt fl < Q2Qc 0) && bool_decide (Q2Qc 0 < pt l)
    | _, _ => false
    end.

Definition infer_level_from_indent (src_p : Paragraph) : Z :=
  match left_indent src_p with
  | None => 0
  | Some l =>
      let left := pt l in
      let lvl := py_round ((left - Q2Qc 18) / Q2Qc 18) in
      Z.max 0 (Z.min lvl 2)
  end.

(** The text a copy can find in [src_p]: that of its runs, or its whole
    text when it has no run. *)
Definition copied_text (src_p : Paragraph) : str :=
  match runs src_p with
  | [] => paragraph_text src_p
  | rs => concat (text <$> rs)
  end.

Definition TEMPLATE_NUM_ID : Z := 1.
Definition TEMPLATE_LIST_STYLE : str := lit "List Paragraph".

(** The belt-and-braces loop that closes every iteration. *)
Definition font_and_bold_off (p : Paragraph) : Paragraph :=
  set_runs ((λ r, set_bold (Some false) (aptos_12 r)) <$> runs p) p.

(** The output paragraph made for one source paragraph with text;
    [template_styles] are the names of the template's styles. *)
Definition remap_paragraph (template_styles : list str) (sp : Paragraph)
    : Paragraph :=
  let dp := add_paragraph [] None in
  if is_list_like sp then
    let lvl := infer_level_from_indent sp in
    let dp :=
      if bool_decide (TEMPLATE_LIST_STYLE ∈ template_styles)
      then set_style TEMPLATE_LIST_STYLE dp else dp in
    let dp := set_paragraph_numbering dp TEMPLATE_NUM_ID lvl in
    let dp := clear_direct_paragraph_formatting dp in
    font_and_bold_off (copy_runs_force_not_bold sp dp)
  else
    let dp := clear_direct_paragraph_formatting dp in
    font_and_bold_off (copy_runs_force_not_bold sp dp).

(** The body of the loop over the source paragraphs; [out] is the body of
    the output document, empty after the template's content is wiped. *)
Definition remap_step (template_styles : list str) (out : list Paragraph)
    (sp : Paragraph) : list Paragraph :=
  if negb (nonblank (paragraph_text sp)) then out
  else out ++ [remap_paragraph template_styles sp].

Definition apply_template_bullets (src : list Paragraph)
    (template_styles : list str) : list Paragraph :=
  foldl (remap_step template_styles) [] src.

End Reindent.

(** * Properties *)

Import PyStr PyNum Docx.

(** ** The text of a paragraph *)

Section ParagraphText.

Lemma text_from_no_links (i : nat) (rs : list Run) :
  text_from i rs [] = concat (text <$> rs).
Proof.
  revert i. induction rs as [|r rs IH]; intros i; [done|].
  simpl. by rewrite IH.
Qed.

Lemma text_from_ext (i : nat) (rs rs' : list Run) (ls : list Hyperlink) :
  text <$> rs = text <$> rs' → text_from i rs ls = text_from i rs' ls.
Proof.
  revert i rs'. induction rs as [|r rs IH]; intros i [|r' rs'] Heq;
    try done.
  rewrite !fmap_cons in Heq. injection Heq as Hr Hrs.
  simpl. by rewrite Hr, (IH (S i) rs' Hrs).
Qed.

Lemma paragraph_text_no_links (p : Paragraph) :
  hyperlinks p = [] → paragraph_text p = concat (text <$> runs p).
Proof.
  intros Hl. unfold paragraph_text. rewrite Hl. apply text_from_no_links.
Qed.

Lemma paragraph_text_no_runs (p : Paragraph) :
  runs p = [] → paragraph_text p = concat (link_text <$> hyperlinks p).
Proof.
  intros Hr. unfold paragraph_text. rewrite Hr. cbn [text_from].
  assert (∀ ls : list Hyperlink,
            List.filter (λ l, bool_decide (0 ≤ link_before l)) ls = ls) as ->;
    [|done].
  induction ls as [|l ls IH]; [done|]. cbn [List.filter].
  rewrite bool_decide_eq_true_2 by lia. by rewrite IH.
Qed.

End ParagraphText.

(** ** The indent encoding of levels *)

Section LevelEncoding.
Local Open Scope Z_scope.

Lemma apply_level_indent_left (p : Paragraph) (L : Z) :
  0 <= L <= 2 →
  left_indent (Convert.apply_level_indent p L) = Some (228600 * (1 + L)).
Proof.
  intros HL.
  assert (L = 0 ∨ L = 1 ∨ L = 2) as [-> | [-> | ->]] by lia; reflexivity.
Qed.

Lemma apply_level_indent_first_line (p : Paragraph) (L : Z) :
  first_line_indent (Convert.apply_level_indent p L) = Some (-228600).
Proof. reflexivity. Qed.

Lemma infer_level_of_encoding (p : Paragraph) (L : Z) :
  0 <= L <= 2 →
  left_indent p = Some (228600 * (1 + L)) →
  Reindent.infer_level_from_indent p = L.
Proof.
  intros HL Hp. unfold Reindent.infer_level_from_indent. rewrite Hp.
  assert (L = 0 ∨ L = 1 ∨ L = 2) as [-> | [-> | ->]] by lia; reflexivity.
Qed.

(** C1. For every level L in {0,1,2}, the paragraph the postprocessor
    indents for L has a left indent of 18 + 18 L points and a negative
    first-line indent, the remapper takes it for a list paragraph, and the
    remapper's inference round((left - 18) / 18), clamped to [0, 2], gives
    back L. *)
Theorem indent_encoding_roundtrip (p : Paragraph) (L : Z) :
  0 <= L <= 2 →
  let q := Convert.apply_level_indent p L in
  (pt <$> left_indent q) = Some (Q2Qc 18 + Q2Qc 18 * Qc_of_Z L)%Qc ∧
  (∃ f, first_line_indent q = Some f ∧ f < 0) ∧
  Reindent.is_list_like q = true ∧
  Reindent.infer_level_from_indent q = L.
Proof.
  intros HL q. split; [|split; [|split]].
  - subst q. rewrite apply_level_indent_left by done.
    assert (L = 0 ∨ L = 1 ∨ L = 2) as [-> | [-> | ->]] by lia;
      simpl; f_equal; apply Qc_is_canon; reflexivity.
  - exists (-228600). split; [apply apply_level_indent_first_line | lia].
  - unfold Reindent.is_list_like.
    destruct (startswith _ _); [done|].
    subst q. rewrite apply_level_indent_first_line.
    rewrite apply_level_indent_left by done.
    assert (L = 0 ∨ L = 1 ∨ L = 2) as [-> | [-> | ->]] by lia; reflexivity.
  - apply infer_level_of_encoding; [done|].
    by apply apply_level_indent_left.
Qed.

Lemma indent_encoding_roundtrip_witness :
  (0 <= 1 <= 2) ∧
  Reindent.infer_level_from_indent
    (Convert.apply_level_indent (add_paragraph (lit "x") None) 1) = 1.
Proof.
  split; [lia|].
  apply (indent_encoding_roundtrip (add_paragraph (lit "x") None) 1). lia.
Defined.

End LevelEncoding.

(** ** Clustering of bullet offsets *)

Section Clustering.
Import Convert.

Lemma sorted_Permutation (xs ys : list Qc) :
  xs ≡ₚ ys → sorted xs = sorted ys.
Proof.
  intros Hp. unfold sorted.
  apply (Sorted_unique Qcle); try apply Sorted_merge_sort; try apply _.
  by rewrite !merge_sort_Permutation.
Qed.

Lemma sorted_nil_inv (xs : list Qc) : sorted xs = [] → xs = [].
Proof.
  intros Hs. apply Permutation_nil_r. rewrite <- Hs.
  unfold sorted. by rewrite merge_sort_Permutation.
Qed.

Lemma cluster_step_length tol (cl : list (list Qc)) x :
  length cl ≤ length (cluster_step tol cl x).
Proof.
  unfold cluster_step.
  destruct (last cl ≫= last); [case_bool_decide|];
    rewrite ?length_alter, ?length_app; simpl; lia.
Qed.

Lemma cluster_loop_length tol (rest : list Qc) (cl : list (list Qc)) :
  length cl ≤ length (foldl (cluster_step tol) cl rest).
Proof.
  revert cl. induction rest as [|x rest IH]; intros cl; simpl; [lia|].
  etrans; [apply (cluster_step_length tol cl x) | apply IH].
Qed.

Lemma centers_nonempty (xs : list Qc) tol :
  xs ≠ [] → _cluster_x_positions xs tol ≠ [].
Proof.
  intros Hxs Hc. destruct xs as [|x xs]; [done|].
  unfold _cluster_x_positions in Hc. apply sorted_nil_inv in Hc.
  apply fmap_nil_inv in Hc. unfold clusters_of in Hc.
  destruct (sorted (x :: xs)) as [|x0 rest] eqn:Hs.
  - by apply sorted_nil_inv in Hs.
  - pose proof (cluster_loop_length tol rest [[x0]]) as Hlen.
    rewrite Hc in Hlen. simpl in Hlen. lia.
Qed.

Lemma min_index_go_first_least (rest seen : list Qc) best best_key :
  seen !! best = Some best_key →
  first_least seen best →
  first_least (seen ++ rest) (min_index_go best best_key (length seen) rest).
Proof.
  revert seen best best_key.
  induction rest as [|k ks IH]; intros seen best bk Hb Hf; simpl.
  { by rewrite app_nil_r. }
  destruct Hf as (v & Hv & Hle & Hlt).
  assert (v = bk) as -> by congruence.
  replace (seen ++ k :: ks) with ((seen ++ [k]) ++ ks)
    by (by rewrite <- app_assoc).
  replace (S (length seen)) with (length (seen ++ [k]))
    by (rewrite length_app; simpl; lia).
  case_bool_decide as Hk.
  - apply IH.
    + by rewrite lookup_app_r, Nat.sub_diag by lia.
    + exists k. split; [by rewrite lookup_app_r, Nat.sub_diag by lia|].
      split.
      * intros j w Hj. apply lookup_app_Some in Hj as [Hj | [_ Hj]].
        -- apply Qclt_le_weak. eapply Qclt_le_trans; [exact Hk|]. eauto.
        -- apply list_lookup_singleton_Some in Hj as [_ <-].
           apply Qcle_refl.
      * intros j w Hj Hjk. apply lookup_app_Some in Hj as [Hj | [Hge _]].
        -- eapply Qclt_le_trans; [exact Hk|]. eauto.
        -- lia.
  - apply IH.
    + by apply lookup_app_l_Some.
    + exists bk. split; [by apply lookup_app_l_Some|]. split.
      * intros j w Hj. apply lookup_app_Some in Hj as [Hj | [_ Hj]]; [eauto|].
        apply list_lookup_singleton_Some in Hj as [_ <-].
        by apply Qcnot_lt_le.
      * intros j w Hj Hjk. apply lookup_app_Some in Hj as [Hj | [Hge _]].
        -- eauto.
        -- apply lookup_lt_Some in Hb. lia.
Qed.

Lemma min_index_first_least (keys : list Qc) :
  keys ≠ [] → first_least keys (min_index keys).
Proof.
  destruct keys as [|k ks]; [done|]. intros _. simpl.
  apply (min_index_go_first_least ks [k] 0 k); [done|].
  exists k. split; [done|]. split.
  - intros j w Hj. apply list_lookup_singleton_Some in Hj as [_ <-].
    apply Qcle_refl.
  - intros j w _ Hj. lia.
Qed.

Lemma levels_lookup (xs : list Qc) (i : nat) (x : Qc) :
  xs !! i = Some x →
  _levels_for_bullets_on_page xs !! i
  = Some (Z.max 0 (Z.min
      (Z.of_nat (nearest_center (_cluster_x_positions xs (Q2Qc 4)) x)) 2)).
Proof.
  intros Hx. unfold _levels_for_bullets_on_page.
  destruct xs as [|x0 xs']; [done|].
  by rewrite list_lookup_fmap, Hx.
Qed.

(** The offsets 50.0 and 50.3 share a column and 90.0 is the next one. *)
Example levels_scenario :
  _levels_for_bullets_on_page [Q2Qc 50; Q2Qc (503 # 10); Q2Qc 90]
  = [0; 0; 1]%Z.
Proof. reflexivity. Qed.

(** C4. Clustering any permutation of the same offsets gives the same
    centres, and an offset gets the same level in both, wherever it
    stands. *)
Theorem clustering_order_independent (xs ys : list Qc) :
  xs ≡ₚ ys →
  (∀ tol, _cluster_x_positions xs tol = _cluster_x_positions ys tol) ∧
  ∀ i j x, xs !! i = Some x → ys !! j = Some x →
    ∃ lvl, _levels_for_bullets_on_page xs !! i = Some lvl ∧
           _levels_for_bullets_on_page ys !! j = Some lvl.
Proof.
  intros Hp.
  assert (∀ tol, _cluster_x_positions xs tol = _cluster_x_positions ys tol)
    as Hc.
  { intros tol. unfold _cluster_x_positions, clusters_of.
    rewrite (sorted_Permutation xs ys Hp).
    destruct xs as [|x xs'], ys as [|y ys']; try done.
    all: exfalso; first [ exact (Permutation_nil_cons Hp)
                        | exact (Permutation_nil_cons (Permutation_sym Hp)) ]. }
  split; [done|].
  intros i j x Hi Hj. eexists. split.
  - by apply levels_lookup.
  - rewrite (levels_lookup ys j x Hj). by rewrite Hc.
Qed.

Lemma clustering_order_independent_witness :
  [Q2Qc 90; Q2Qc 50; Q2Qc (503 # 10)] ≡ₚ [Q2Qc 50; Q2Qc (503 # 10); Q2Qc 90] ∧
  _cluster_x_positions [Q2Qc 90; Q2Qc 50; Q2Qc (503 # 10)] (Q2Qc 4)
  = _cluster_x_positions [Q2Qc 50; Q2Qc (503 # 10); Q2Qc 90] (Q2Qc 4).
Proof.
  assert ([Q2Qc 90; Q2Qc 50; Q2Qc (503 # 10)]
          ≡ₚ [Q2Qc 50; Q2Qc (503 # 10); Q2Qc 90]) as Hp.
  { apply (Permutation_cons_append [Q2Qc 50; Q2Qc (503 # 10)] (Q2Qc 90)). }
  split; [exact Hp|].
  apply (clustering_order_independent _ _ Hp).
Defined.

End Clustering.

(** ** The clusters in float arithmetic *)

Section RoundedClusters.
Import Convert Convert.Rounded.
Context `{FloatOps}.

Lemma rounded_step_snoc tol (init : list (list Qc)) (c : list Qc)
    (y x : Qc) :
  cluster_step tol (init ++ [c ++ [y]]) x
  = if bool_decide (Qcabs (fsub x y) ≤ tol)%Qc
    then init ++ [c ++ [y; x]]
    else init ++ [c ++ [y]; [x]].
Proof.
  unfold cluster_step. rewrite last_snoc. simpl. rewrite last_snoc.
  case_bool_decide; [|by rewrite <- app_assoc].
  rewrite length_app. simpl.
  replace (length init + 1 - 1) with (length init + 0) by lia.
  rewrite alter_app_r. simpl. by rewrite <- app_assoc.
Qed.

Lemma rounded_inv_last tol (cl : list (list Qc)) :
  cluster_inv tol cl → ∃ init c y, cl = init ++ [c ++ [y]].
Proof.
  intros (Hne & Hall & _).
  destruct (proj2 (last_is_Some cl) Hne) as [c0 Hc0].
  apply last_Some in Hc0 as [init ->].
  apply (proj1 (Forall_app _ _ _)) in Hall as [_ Hc].
  apply (proj1 (Forall_singleton _ _)) in Hc.
  destruct (proj2 (last_is_Some c0) Hc) as [y Hy].
  apply last_Some in Hy as [c ->]. by exists init, c, y.
Qed.

Lemma rounded_chained_snoc tol (c : list Qc) (y x : Qc) :
  chained tol (c ++ [y]) → (Qcabs (fsub x y) ≤ tol)%Qc →
  chained tol (c ++ [y; x]).
Proof.
  intros Hc Hxy i a b Ha Hb.
  change (c ++ [y; x]) with (c ++ ([y] ++ [x])) in Ha, Hb.
  rewrite app_assoc in Ha, Hb.
  apply lookup_snoc_Some in Hb as [[Hlt Hb] | [Hlen ->]].
  - apply lookup_snoc_Some in Ha as [[_ Ha] | [Hlen' _]]; [|lia].
    by apply (Hc i).
  - rewrite lookup_app_l in Ha by lia.
    assert (i = length c) as ->
      by (rewrite length_app in Hlen; simpl in Hlen; lia).
    rewrite lookup_app_r, Nat.sub_diag in Ha by lia.
    by injection Ha as <-.
Qed.

Lemma rounded_step_inv tol (cl : list (list Qc)) (x : Qc) :
  cluster_inv tol cl → cluster_inv tol (cluster_step tol cl x).
Proof.
  intros Hinv. destruct (rounded_inv_last tol cl Hinv) as (init & c & y & ->).
  destruct Hinv as (_ & Hall & Hch & Hsep).
  apply (proj1 (Forall_app _ _ _)) in Hall as [Hall _].
  apply (proj1 (Forall_app _ _ _)) in Hch as [Hch Hcy].
  apply (proj1 (Forall_singleton _ _)) in Hcy.
  rewrite rounded_step_snoc. case_bool_decide as Hxy.
  - split; [by destruct init|]. split; [|split].
    + apply Forall_app. split; [done|]. apply Forall_singleton. by destruct c.
    + apply Forall_app. split; [done|]. apply Forall_singleton.
      by apply rounded_chained_snoc.
    + intros k c1 c2 a b Hk HSk Ha Hb.
      apply lookup_snoc_Some in HSk as [[Hlt HSk] | [Hlen <-]].
      * apply lookup_snoc_Some in Hk as [[_ Hk] | [Hlen' _]]; [|lia].
        apply (Hsep k c1 c2 a b); try done; by apply lookup_app_l_Some.
      * rewrite lookup_app_l in Hk by lia.
        apply (Hsep k c1 (c ++ [y]) a b); try done.
        -- by apply lookup_app_l_Some.
        -- rewrite Hlen. apply list_lookup_middle. done.
        -- by destruct c.
  - split; [by destruct init|]. split; [|split].
    + apply Forall_app. split; [done|].
      apply Forall_cons. split; [by destruct c|]. by apply Forall_singleton.
    + apply Forall_app. split; [done|].
      apply Forall_cons. split; [done|]. apply Forall_singleton.
      intros [|i] a b Ha Hb; done.
    + intros k c1 c2 a b Hk HSk Ha Hb.
      change (init ++ [c ++ [y]; [x]])
        with (init ++ ([c ++ [y]] ++ [[x]])) in Hk, HSk.
      rewrite app_assoc in Hk, HSk.
      apply lookup_snoc_Some in HSk as [[Hlt HSk] | [Hlen <-]].
      * apply lookup_snoc_Some in Hk as [[_ Hk] | [Hlen' _]]; [|lia].
        by apply (Hsep k c1 c2 a b).
      * rewrite lookup_app_l in Hk by lia.
        assert (k = length init) as ->
          by (rewrite length_app in Hlen; simpl in Hlen; lia).
        rewrite list_lookup_middle in Hk by done. injection Hk as <-.
        rewrite last_snoc in Ha. injection Ha as <-.
        simpl in Hb. injection Hb as <-.
        by apply Qclt_nge.
Qed.

Lemma rounded_step_concat tol (cl : list (list Qc)) (x : Qc) :
  cluster_inv tol cl → concat (cluster_step tol cl x) = concat cl ++ [x].
Proof.
  intros Hinv. destruct (rounded_inv_last tol cl Hinv) as (init & c & y & ->).
  rewrite rounded_step_snoc. case_bool_decide;
    rewrite !concat_app; simpl; by rewrite ?app_nil_r, <- ?app_assoc.
Qed.

Lemma rounded_loop_inv tol (rest : list Qc) (cl : list (list Qc)) :
  cluster_inv tol cl →
  cluster_inv tol (foldl (cluster_step tol) cl rest) ∧
  concat (foldl (cluster_step tol) cl rest) = concat cl ++ rest.
Proof.
  revert cl. induction rest as [|x rest IH]; intros cl Hinv; simpl.
  { by rewrite app_nil_r. }
  destruct (IH _ (rounded_step_inv tol cl x Hinv)) as [Hi Hc].
  split; [done|]. rewrite Hc, rounded_step_concat by done.
  by rewrite <- app_assoc.
Qed.

Lemma rounded_clusters_inv (xs : list Qc) tol :
  xs ≠ [] →
  cluster_inv tol (clusters_of xs tol) ∧
  concat (clusters_of xs tol) = sorted xs.
Proof.
  intros Hne. unfold clusters_of.
  destruct (sorted xs) as [|x0 rest] eqn:Hs.
  { by apply sorted_nil_inv in Hs. }
  apply (rounded_loop_inv tol rest [[x0]]).
  split; [done|]. split; [by apply Forall_singleton|]. split.
  - apply Forall_singleton. intros [|i] a b Ha Hb; done.
  - intros [|k] c1 c2 a b Hk HSk; done.
Qed.

(** X5. The clusters are the maximal chains of the sorted offsets under
    the tolerance test of the program, [abs(b - a) <= tol] on the float
    difference: read one after the other they are the sorted offsets,
    none of them is empty, neighbours in a cluster pass the test, and the
    last offset of a cluster and the first of the next fail it. *)
Theorem clusters_are_maximal_chains (xs : list Qc) (tol : Qc) :
  concat (clusters_of xs tol) = sorted xs ∧
  sorted xs ≡ₚ xs ∧
  Sorted Qcle (sorted xs) ∧
  Forall (λ c, c ≠ []) (clusters_of xs tol) ∧
  Forall (chained tol) (clusters_of xs tol) ∧
  separated tol (clusters_of xs tol).
Proof.
  assert (sorted xs ≡ₚ xs) as Hp by apply merge_sort_Permutation.
  assert (Sorted Qcle (sorted xs)) as Hs
    by (apply Sorted_merge_sort; apply _).
  destruct (decide (xs = [])) as [-> | Hne].
  { by repeat split. }
  destruct (rounded_clusters_inv xs tol Hne) as [(_ & Hall & Hch & Hsep) Hc].
  by repeat split.
Qed.

End RoundedClusters.

(** The floats 0.7 and 4.7 are more than 4 apart, by less than the
    rounding of their difference: the program chains them, exact
    arithmetic does not. *)
Example rounded_gap_chains :
  let a := Convert.Rounded.round_binary64 (Q2Qc (7 # 10)) in
  let b := Convert.Rounded.round_binary64 (Q2Qc (47 # 10)) in
  (Q2Qc 4 < b - a)%Qc ∧
  @Convert.Rounded.clusters_of Convert.Rounded.binary64 [a; b] (Q2Qc 4)
  = [[a; b]] ∧
  @Convert.Rounded.clusters_of Convert.Rounded.exact [a; b] (Q2Qc 4)
  = [[a]; [b]].
Proof.
  intros a b. split; [|split].
  - apply (bool_decide_unpack _). by vm_compute.
  - apply (bool_decide_unpack _). by vm_compute.
  - apply (bool_decide_unpack _). by vm_compute.
Qed.

(** Without rounding the module [Rounded] is the exact model. *)
Lemma exact_is_unrounded (xs : list Qc) (tol : Qc) :
  @Convert.Rounded.clusters_of Convert.Rounded.exact xs tol
  = Convert.clusters_of xs tol ∧
  @Convert.Rounded._cluster_x_positions Convert.Rounded.exact xs tol
  = Convert._cluster_x_positions xs tol ∧
  @Convert.Rounded._levels_for_bullets_on_page Convert.Rounded.exact xs
  = Convert._levels_for_bullets_on_page xs.
Proof. by repeat split. Qed.

(** ** Levels in float arithmetic *)

Section RoundedLevels.
Import Convert Convert.Rounded.
Context `{FloatOps}.

Lemma rounded_step_length tol (cl : list (list Qc)) x :
  length cl ≤ length (cluster_step tol cl x).
Proof.
  unfold cluster_step.
  destruct (last cl ≫= last); [case_bool_decide|];
    rewrite ?length_alter, ?length_app; simpl; lia.
Qed.

Lemma rounded_loop_length tol (rest : list Qc) (cl : list (list Qc)) :
  length cl ≤ length (foldl (cluster_step tol) cl rest).
Proof.
  revert cl. induction rest as [|x rest IH]; intros cl; simpl; [lia|].
  etrans; [apply (rounded_step_length tol cl x) | apply IH].
Qed.

Lemma rounded_centers_nonempty (xs : list Qc) tol :
  xs ≠ [] → _cluster_x_positions xs tol ≠ [].
Proof.
  intros Hxs Hc. destruct xs as [|x xs]; [done|].
  unfold _cluster_x_positions in Hc. apply sorted_nil_inv in Hc.
  apply fmap_nil_inv in Hc. unfold clusters_of in Hc.
  destruct (sorted (x :: xs)) as [|x0 rest] eqn:Hs.
  - by apply sorted_nil_inv in Hs.
  - pose proof (rounded_loop_length tol rest [[x0]]) as Hlen.
    rewrite Hc in Hlen. simpl in Hlen. lia.
Qed.

Lemma rounded_levels_lookup (xs : list Qc) (i : nat) (x : Qc) :
  xs !! i = Some x →
  _levels_for_bullets_on_page xs !! i
  = Some (Z.max 0 (Z.min
      (Z.of_nat (nearest_center (_cluster_x_positions xs (Q2Qc 4)) x)) 2)).
Proof.
  intros Hx. unfold _levels_for_bullets_on_page.
  destruct xs as [|x0 xs']; [done|].
  by rewrite list_lookup_fmap, Hx.
Qed.

(** C3, for the code as written, in the arithmetic of the program. The
    clusters are the chains of the sorted offsets under the tolerance
    test [abs(b - a) <= 4] on the float difference, the centres are the
    float means of the clusters in ascending order, and each bullet's
    level is the index of the centre nearest to its offset by the float
    distance [abs(x - c)], the lowest such index when two centres have the
    same float distance, capped at 2. *)
Theorem level_is_nearest_center (xs : list Qc) (i : nat) (x : Qc) :
  xs !! i = Some x →
  let clusters := clusters_of xs (Q2Qc 4) in
  let centers := _cluster_x_positions xs (Q2Qc 4) in
  (concat clusters = sorted xs ∧
   Forall (λ c, c ≠ []) clusters ∧
   Forall (λ c, ∀ n a b, c !! n = Some a → c !! S n = Some b →
                         (Qcabs (fsub b a) ≤ Q2Qc 4)%Qc) clusters ∧
   (∀ n c1 c2 a b, clusters !! n = Some c1 → clusters !! S n = Some c2 →
                   last c1 = Some a → head c2 = Some b →
                   (Q2Qc 4 < Qcabs (fsub b a))%Qc)) ∧
  Sorted Qcle centers ∧
  centers ≡ₚ (λ c, fdiv (fsum c) (length c)) <$> clusters ∧
  ∃ k ck,
    centers !! k = Some ck ∧
    (∀ j cj, centers !! j = Some cj →
             (Qcabs (fsub x ck) ≤ Qcabs (fsub x cj))%Qc) ∧
    (∀ j cj, centers !! j = Some cj → j < k →
             (Qcabs (fsub x ck) < Qcabs (fsub x cj))%Qc) ∧
    _levels_for_bullets_on_page xs !! i = Some (Z.min (Z.of_nat k) 2).
Proof.
  intros Hx clusters centers.
  assert (xs ≠ []) as Hne by (intros ->; done).
  split; [|split; [|split]].
  - destruct (rounded_clusters_inv xs (Q2Qc 4) Hne)
      as [(_ & Hall & Hch & Hsep) Hcat].
    by repeat split.
  - subst centers. unfold _cluster_x_positions.
    destruct xs; [done|]. apply Sorted_merge_sort; apply _.
  - subst centers clusters. unfold _cluster_x_positions.
    destruct xs; [done|]. apply merge_sort_Permutation.
  - pose proof (rounded_centers_nonempty xs (Q2Qc 4) Hne) as Hc.
    fold centers in Hc.
    destruct (min_index_first_least ((λ c, Qcabs (fsub x c)) <$> centers))
      as (v & Hv & Hle & Hlt).
    { intros Hnil. by apply fmap_nil_inv in Hnil. }
    change (min_index _) with (nearest_center centers x) in Hv, Hlt.
    remember (nearest_center centers x) as k eqn:Hk.
    rewrite list_lookup_fmap in Hv.
    destruct (centers !! k) as [ck|] eqn:Hck; simpl in Hv; [|discriminate].
    injection Hv as <-.
    exists k, ck. split; [done|]. split; [|split].
    + intros j cj Hj. apply (Hle j). by rewrite list_lookup_fmap, Hj.
    + intros j cj Hj Hjk. apply (Hlt j); [|done].
      by rewrite list_lookup_fmap, Hj.
    + rewrite (rounded_levels_lookup xs i x Hx). fold centers. rewrite <- Hk.
      f_equal. lia.
Qed.

End RoundedLevels.

(** The rounding on some known floats: 0.1, the tie at [2 ** 53 + 1]
    that goes to the even neighbour below, the tie at [2 ** 53 + 3] that
    goes to the even neighbour above, and the quotient 64 / 6. *)
Example round_binary64_values :
  this (Convert.Rounded.round_binary64 (Q2Qc (1 # 10)))
  = (3602879701896397 # 36028797018963968)%Q ∧
  this (Convert.Rounded.round_binary64 (Q2Qc (9007199254740993 # 1)))
  = (9007199254740992 # 1)%Q ∧
  this (Convert.Rounded.round_binary64 (Q2Qc (9007199254740995 # 1)))
  = (9007199254740996 # 1)%Q ∧
  this (@Convert.Rounded.fdiv Convert.Rounded.binary64 (Q2Qc 64) 6)
  = (6004799503160661 # 562949953421312)%Q.
Proof. repeat split; vm_compute; reflexivity. Qed.

(** The offsets 3, 7, 9, 12, 15, 18 chain into one cluster and 23, 25, 28
    into the next. The exact centres 32/3 and 76/3 are equally far from
    18; the float centres are not. *)
Lemma level_is_nearest_center_witness :
  let xs := Q2Qc <$> [3#1; 7#1; 9#1; 12#1; 15#1; 18#1; 23#1; 25#1; 28#1] in
  xs !! 5 = Some (Q2Qc 18) ∧
  ∃ k ck,
    @Convert.Rounded._cluster_x_positions Convert.Rounded.binary64
      xs (Q2Qc 4) !! k = Some ck ∧
    @Convert.Rounded._levels_for_bullets_on_page Convert.Rounded.binary64
      xs !! 5 = Some (Z.min (Z.of_nat k) 2).
Proof.
  intros xs. split; [reflexivity|].
  destruct (@level_is_nearest_center Convert.Rounded.binary64
              xs 5 (Q2Qc 18))
    as (_ & _ & _ & k & ck & Hk & _ & _ & Hl); [reflexivity|].
  exists k, ck. by split.
Defined.

(** On that page the offset 18 gets level 1 from the program, and level 0
    where nothing is rounded. *)
Example rounding_decides_the_tie :
  let xs := Q2Qc <$> [3#1; 7#1; 9#1; 12#1; 15#1; 18#1; 23#1; 25#1; 28#1] in
  @Convert.Rounded._levels_for_bullets_on_page Convert.Rounded.binary64 xs
  = [0; 0; 0; 0; 0; 1; 1; 1; 1]%Z ∧
  @Convert.Rounded._levels_for_bullets_on_page Convert.Rounded.exact xs
  = [0; 0; 0; 0; 0; 0; 1; 1; 1]%Z.
Proof. split; vm_compute; reflexivity. Qed.

(** C3 as the specification states it fails. Offsets 0, 4, 8, 12, 16 chain into one
    cluster with centre 8 and 21 is a cluster of its own; 16 belongs to the
    first cluster but is nearer to 21 than to 8, so it gets level 1. All
    the numbers involved are floats, and nothing is rounded. *)
Lemma level_is_not_own_cluster :
  ¬ ∀ (xs : list Qc) (i : nat) (x : Qc) (lvl : Z),
      xs !! i = Some x →
      @Convert.Rounded.level_of_own_cluster Convert.Rounded.binary64
        xs x lvl →
      @Convert.Rounded._levels_for_bullets_on_page Convert.Rounded.binary64
        xs !! i = Some lvl.
Proof.
  intros Hclaim.
  set (xs := [Q2Qc 0; Q2Qc 4; Q2Qc 8; Q2Qc 12; Q2Qc 16; Q2Qc 21]).
  specialize (Hclaim xs 4 (Q2Qc 16) 0%Z eq_refl).
  assert (@Convert.Rounded.level_of_own_cluster Convert.Rounded.binary64
            xs (Q2Qc 16) 0) as Hown.
  { exists [Q2Qc 0; Q2Qc 4; Q2Qc 8; Q2Qc 12; Q2Qc 16], 0.
    split; [|split; [|split]].
    - apply (bool_decide_unpack _). by vm_compute.
    - apply (bool_decide_unpack _). by vm_compute.
    - apply (bool_decide_unpack _). by vm_compute.
    - reflexivity. }
  specialize (Hclaim Hown). vm_compute in Hclaim. discriminate.
Qed.

(** ** The heading classifier *)

Section Heading.
Import Convert.
Context `{UnicodeData}.

(** The float test [title_like >= 0.7] as a comparison of counts. *)
Lemma title_like_threshold (c m : nat) :
  0 < m →
  (Q2Qc (7 # 10) ≤ Qc_of_nat c / Qc_of_nat m)%Qc ↔ 7 * m ≤ 10 * c.
Proof.
  intros Hm. unfold Qcle, Qc_of_nat, Qc_of_Z, Qcdiv, Qcmult, Qcinv.
  cbn [this Q2Qc]. rewrite !Qred_correct.
  destruct m as [|m']; [lia|].
  replace (Z.of_nat (S m')) with (Z.pos (Pos.of_succ_nat m')) by lia.
  unfold Qle, Qmult, Qinv, inject_Z. cbn [Qnum Qden]. lia.
Qed.

Lemma heading_rule_nil : ¬ heading_rule [].
Proof. intros (_ & _ & [Hc | [Hw _]]); [discriminate | by apply Hw]. Qed.

Lemma looks_like_heading_unfold (line : str) :
  looks_like_heading line = true ↔ heading_rule (strip line).
Proof.
  unfold looks_like_heading.
  destruct (strip line) as [|c0 l0] eqn:Hl.
  { split; [done | intros Hr; by apply heading_rule_nil in Hr]. }
  set (l := c0 :: l0). unfold heading_rule.
  case_bool_decide as Hb.
  { split; [done|]. intros (Hnone & _). rewrite Hnone in Hb.
    by destruct Hb. }
  assert (BULLET_RE_match l = None) as Hnone.
  { destruct (BULLET_RE_match l) eqn:E; [|done]. destruct Hb; eauto. }
  destruct (80 <? length l) eqn:H80.
  { apply Nat.ltb_lt in H80. split; [done|]. intros (_ & Hlen & _). lia. }
  apply Nat.ltb_ge in H80.
  destruct (endswith l (lit ":")) eqn:Hcolon.
  { split; [|done]. intros _. split; [done|]. split; [done|]. by left. }
  destruct (findall_words l) as [|w ws] eqn:Hw.
  { split; [done|]. intros (_ & _ & [? | [? _]]); done. }
  set (words := w :: ws).
  destruct (isupper l && (length l <=? 60)) eqn:Hup.
  { apply andb_true_iff in Hup as [Hup H60]. apply Nat.leb_le in H60.
    split; [|done]. intros _. split; [done|]. split; [done|].
    right. split; [done|]. by left. }
  assert (max 1 (length words) = length words) as Hmax by (simpl; lia).
  rewrite Hmax.
  destruct (bool_decide _ && (length l <=? 70)) eqn:Ht.
  - apply andb_true_iff in Ht as [Ht H70]. apply bool_decide_eq_true in Ht.
    apply Nat.leb_le in H70.
    apply title_like_threshold in Ht; [|simpl; lia].
    split; [|done]. intros _. split; [done|]. split; [done|].
    right. split; [done|]. right. by split.
  - split; [done|]. intros (_ & _ & [? | [_ [[Hu H60] | [Hr H70]]]]).
    + done.
    + apply Nat.leb_le in H60. by rewrite Hu, H60 in Hup.
    + apply Nat.leb_le in H70.
      apply (title_like_threshold _ (length words)) in Hr; [|simpl; lia].
      by rewrite (bool_decide_eq_true_2 _ Hr), H70 in Ht.
Qed.

(** C5, for the code as written. A line is a heading exactly when, trimmed, it
    is not a bullet line, has at most 80 characters, and either ends with a
    colon, or has at least one word (a run of ASCII letters and
    apostrophes) and is upper-case with at most 60 characters or has at
    least 70% of its words capitalised and at most 70 characters. A line
    whose trimmed text is longer than 80 characters is never a heading. *)
Theorem looks_like_heading_rule (line : str) :
  (looks_like_heading line = true ↔ heading_rule (strip line)) ∧
  (80 < length (strip line) → looks_like_heading line = false).
Proof.
  split; [apply looks_like_heading_unfold|].
  intros Hlen. apply not_true_is_false. intros Hh.
  apply looks_like_heading_unfold in Hh as (_ & Hle & _). lia.
Qed.

End Heading.

(** A line of 81 capitals is not a heading. *)
Lemma looks_like_heading_rule_witness :
  80 < length (strip (replicate 81 65%N)) ∧
  @Convert.looks_like_heading basic_unicode (replicate 81 65%N) = false.
Proof.
  split; [vm_compute; lia|].
  apply (@looks_like_heading_rule basic_unicode (replicate 81 65%N)).
  vm_compute; lia.
Defined.

(** C5 as the specification states it fails. The Russian line "ГЛАВА" (U+0413
    U+041B U+0410 U+0412 U+0410) is not a bullet line, has five characters
    and is upper-case, yet it holds no run of ASCII letters and the
    classifier rejects it. *)
Lemma heading_needs_a_word :
  ¬ ∀ (U : UnicodeData) (line : str),
      strip line = line →
      (Convert.looks_like_heading line = true
       ↔ Convert.heading_rule_any_script line).
Proof.
  intros Hclaim.
  destruct (Hclaim basic_unicode [1043; 1051; 1040; 1042; 1040]%N eq_refl)
    as [_ Hback].
  assert (@Convert.looks_like_heading basic_unicode
            [1043; 1051; 1040; 1042; 1040]%N = true) as Hh.
  { apply Hback. split; [reflexivity|]. split; [simpl; lia|].
    right. left. split; [reflexivity | simpl; lia]. }
  vm_compute in Hh. discriminate.
Qed.

(** ** Blank and inked strings *)

Section Ink.

Lemma has_ink_app (s t : str) : has_ink (s ++ t) = has_ink s || has_ink t.
Proof. apply existsb_app. Qed.

Lemma has_ink_reverse (s : str) : has_ink (reverse s) = has_ink s.
Proof.
  induction s as [|c s IH]; [done|].
  rewrite reverse_cons, has_ink_app, IH. simpl.
  rewrite orb_false_r. apply orb_comm.
Qed.

Lemma has_ink_lstrip (s : str) : has_ink (lstrip s) = has_ink s.
Proof.
  induction s as [|c s IH]; [done|]. simpl.
  destruct (isspace c) eqn:Hc; simpl; by rewrite ?Hc.
Qed.

Lemma lstrip_nil (s : str) : lstrip s = [] ↔ has_ink s = false.
Proof.
  induction s as [|c s IH]; [done|]. simpl.
  destruct (isspace c); simpl; [done|]. split; discriminate.
Qed.

Lemma has_ink_rstrip (s : str) : has_ink (rstrip s) = has_ink s.
Proof.
  unfold rstrip. by rewrite has_ink_reverse, has_ink_lstrip, has_ink_reverse.
Qed.

Lemma rstrip_nil (s : str) : rstrip s = [] ↔ has_ink s = false.
Proof.
  unfold rstrip. rewrite <- has_ink_reverse, <- lstrip_nil.
  split; [|by intros ->].
  intros Hr. apply (f_equal reverse) in Hr.
  by rewrite reverse_involutive in Hr.
Qed.

Lemma has_ink_strip (s : str) : has_ink (strip s) = has_ink s.
Proof. unfold strip. by rewrite has_ink_rstrip, has_ink_lstrip. Qed.

Lemma strip_nil (s : str) : strip s = [] ↔ has_ink s = false.
Proof. unfold strip. by rewrite rstrip_nil, has_ink_lstrip. Qed.

Lemma nonblank_has_ink (s : str) : nonblank s = has_ink s.
Proof.
  unfold nonblank. case_bool_decide as Hs.
  - apply strip_nil in Hs. by rewrite Hs.
  - destruct (has_ink s) eqn:Hi; [done|]. by apply strip_nil in Hi.
Qed.

Lemma nonblank_not_nil (s : str) : nonblank s = true → s ≠ [].
Proof. by intros Hs ->. Qed.

End Ink.

(** ** The page assembler *)

Section PageAssembly.
Import Convert.
Context `{UnicodeData}.

Lemma normalize_lines_nonblank (raw ln : str) :
  ln ∈ normalize_lines raw → nonblank ln = true.
Proof.
  unfold normalize_lines. intros Hin.
  apply list_elem_of_In, filter_In in Hin as [_ Hf].
  apply andb_true_iff in Hf as [_ Hnoise].
  unfold is_footer_noise in Hnoise. unfold nonblank.
  destruct (strip ln); [done|]. by rewrite bool_decide_eq_false_2.
Qed.

Lemma find_title_elem (lines : list str) (t : str) :
  find_title lines = Some t → t ∈ lines.
Proof.
  induction lines as [|ln rest IH]; [done|]. simpl.
  case_bool_decide; [intros; right; auto|].
  destruct (_ || _).
  - intros [= ->]. left.
  - intros; right; auto.
Qed.

Lemma bullet_text_inked (ln bt : str) :
  bullet_text ln = Some bt → has_ink bt = true.
Proof.
  unfold bullet_text, BULLET_RE_match.
  destruct (lstrip ln) as [|c rest]; [done|].
  destruct (is_bullet_char c); [|done].
  destruct rest as [|w rest']; [done|].
  destruct (isspace w); [|done].
  destruct (rstrip (lstrip (w :: rest'))) as [|b body] eqn:Hbody; [done|].
  destruct (contains _ _); [done|]. simpl. intros [= <-].
  rewrite has_ink_strip.
  destruct (has_ink (b :: body)) eqn:Hi; [done|].
  rewrite <- Hbody in Hi. rewrite has_ink_rstrip in Hi.
  apply rstrip_nil in Hi. by rewrite Hbody in Hi.
Qed.

Lemma add_bold_line_text (d : list Paragraph) (t : str) :
  ∃ p, add_bold_line d t = d ++ [p] ∧ paragraph_text p = t.
Proof.
  eexists. split; [reflexivity|].
  unfold paragraph_text. simpl. apply app_nil_r.
Qed.

Lemma add_bullet_text (d : list Paragraph) (t : str) (lvl : Z) :
  ∃ p, add_bullet d t lvl = d ++ [p] ∧ paragraph_text p = t.
Proof.
  eexists. split; [reflexivity|].
  unfold paragraph_text. destruct t; [done|]. simpl. by rewrite app_nil_r.
Qed.

Lemma flush_bullet_inv (d0 : list Paragraph) (st : PageState) :
  page_inv d0 st →
  page_inv d0 (flush_bullet st) ∧ current_bullet (flush_bullet st) = None.
Proof.
  intros [(body & Hd & Hb) Hcb]. unfold flush_bullet.
  destruct (current_bullet st) as [cb|] eqn:Ecb; simpl.
  - destruct cb as [|c cb'].
    { specialize (Hcb [] eq_refl). done. }
    simpl. split; [|done]. split; [|done]. simpl.
    destruct (add_bullet_text (doc st) (strip (c :: cb')) (current_level st))
      as (p & -> & Hp).
    exists (body ++ [p]). split; [by rewrite Hd, app_assoc|].
    apply Forall_app. split; [done|]. apply Forall_singleton.
    unfold inked. rewrite Hp, nonblank_has_ink, has_ink_strip. by apply Hcb.
  - split; [|done]. split; [eauto|]. by rewrite Ecb.
Qed.

Lemma flush_bullet_open (st : PageState) (cb : str) :
  current_bullet st = Some cb → has_ink cb = true →
  ∃ p, doc (flush_bullet st) = doc st ++ [p] ∧ paragraph_text p = strip cb.
Proof.
  intros Hcb Hink. unfold flush_bullet. rewrite Hcb.
  destruct cb as [|c cb']; [done|]. simpl.
  apply add_bullet_text.
Qed.

Lemma line_step_inv (d0 : list Paragraph) title levels force st (ln : str) :
  nonblank ln = true →
  page_inv d0 st →
  page_inv d0 (line_step title levels force st ln).
Proof.
  intros Hln Hinv. unfold line_step.
  destruct (truthy title && _); [done|].
  destruct (flush_bullet_inv d0 st Hinv) as [[Hdoc Hcb] Hnone].
  destruct (bullet_text ln) as [bt|] eqn:Hbt.
  { apply bullet_text_inked in Hbt.
    destruct (levels !! _); (split; [done|]); simpl; by intros ? [= <-]. }
  destruct (looks_like_heading ln).
  { split; simpl; [|by rewrite Hnone].
    destruct Hdoc as (body & Hd & Hb).
    destruct (add_bold_line_text (doc (flush_bullet st)) ln) as (p & -> & Hp).
    exists (body ++ [p]). split; [by rewrite Hd, app_assoc|].
    apply Forall_app. split; [done|]. apply Forall_singleton.
    unfold inked. by rewrite Hp. }
  destruct force.
  { split; [done|]. simpl. intros ? [= <-]. by rewrite <- nonblank_has_ink. }
  destruct (truthy (current_bullet st)) eqn:Ht; [|done].
  destruct Hinv as [Hd Hc]. split; [done|]. simpl. intros ? [= <-].
  destruct (current_bullet st) as [cb|]; [|done]. simpl.
  rewrite has_ink_app, (Hc cb eq_refl). done.
Qed.

Lemma page_loop_inv (d0 : list Paragraph) title levels force
    (lines : list str) st :
  Forall (λ ln, nonblank ln = true) lines →
  page_inv d0 st →
  page_inv d0 (foldl (line_step title levels force) st lines).
Proof.
  intros Hl. revert st.
  induction Hl as [|ln lines Hln _ IH]; intros st Hinv; simpl; [done|].
  apply IH. by apply line_step_inv.
Qed.

(** A line equal to the title leaves the loop's variables as they are. *)
Lemma line_step_title (t : str) levels force st :
  t ≠ [] → line_step (Some t) levels force st t = st.
Proof.
  intros Ht. unfold line_step.
  destruct t; [done|]. simpl. by rewrite bool_decide_eq_true_2.
Qed.

Lemma page_loop_skips_title (t : str) levels force (lines : list str) st :
  t ≠ [] →
  foldl (line_step (Some t) levels force) st lines
  = foldl (line_step (Some t) levels force) st
      (filter (λ ln, ln ≠ t) lines).
Proof.
  intros Ht. revert st.
  induction lines as [|ln lines IH]; intros st; [done|].
  rewrite filter_cons. destruct (decide (ln = t)) as [-> | Hne]; simpl.
  - rewrite decide_False by (by intros Hne). rewrite line_step_title by done.
    apply IH.
  - rewrite decide_True by done. apply IH.
Qed.

Lemma title_is_inked (page : Page) (t : str) :
  find_title (normalize_lines (page_text page)) = Some t →
  nonblank t = true.
Proof.
  intros Ht. apply find_title_elem in Ht.
  by apply normalize_lines_nonblank in Ht.
Qed.

Lemma is_skipped_title_iff (t : str) :
  is_skipped_title t = true ↔
  str_lower (strip t) = lit "outline" ∨ str_lower (strip t) = lit "summary".
Proof.
  unfold is_skipped_title, str_eqb.
  rewrite orb_true_iff, !bool_decide_eq_true. done.
Qed.

Lemma truthy_title (page : Page) (t : str) :
  find_title (normalize_lines (page_text page)) = Some t →
  truthy (Some t) = true.
Proof.
  intros Ht. apply title_is_inked, nonblank_not_nil in Ht. by destruct t.
Qed.

(** C6. A page whose title, trimmed and lower-cased, is "outline" or
    "summary" adds nothing to the document: no title, no heading, no
    bullet and no blank separator. *)
Theorem outline_and_summary_pages_emit_nothing (force : bool)
    (d : list Paragraph) (page : Page) :
  titled_outline_or_summary page →
  convert_page force d page = d.
Proof.
  intros (t & Ht & Hname). unfold convert_page.
  destruct (normalize_lines (page_text page)) eqn:Hlines; [done|].
  rewrite <- Hlines in *. rewrite Ht.
  rewrite (truthy_title page t Ht). simpl.
  by rewrite (proj2 (is_skipped_title_iff t) Hname).
Qed.

(** What [convert_page] does on a page that is kept. *)
Lemma convert_page_kept (force : bool) (d : list Paragraph) (page : Page) :
  normalize_lines (page_text page) ≠ [] →
  ¬ titled_outline_or_summary page →
  convert_page force d page
  = doc (flush_bullet
           (page_loop (find_title (normalize_lines (page_text page)))
              (_levels_for_bullets_on_page (page_bullet_xs page)) force
              (if truthy (find_title (normalize_lines (page_text page)))
               then add_bold_line d
                      (default []
                         (find_title (normalize_lines (page_text page))))
               else d)
              (normalize_lines (page_text page))))
    ++ [BlankSeparator].
Proof.
  intros Hlines Hkeep. unfold convert_page.
  destruct (normalize_lines (page_text page)) as [|l0 ls] eqn:El; [done|].
  rewrite <- El.
  destruct (find_title (normalize_lines (page_text page))) as [t|] eqn:Et;
    [|done].
  rewrite (truthy_title page t Et). simpl.
  assert (is_skipped_title t = false) as ->; [|done].
  apply not_true_is_false. intros Hs. apply Hkeep.
  exists t. split; [done|]. by apply is_skipped_title_iff.
Qed.

(** C9, for the code as written. A page with no line left after
    normalisation adds nothing, no separator either. A page that keeps at
    least one line and is not an Outline or Summary page adds paragraphs
    that all have text and then exactly one blank separator; a bullet
    still open when the lines run out is written as the last paragraph
    before the separator. *)
Theorem kept_page_ends_with_one_blank (force : bool) (d : list Paragraph)
    (page : Page) :
  let lines := normalize_lines (page_text page) in
  let levels := _levels_for_bullets_on_page (page_bullet_xs page) in
  let title := find_title lines in
  let d1 := if truthy title then add_bold_line d (default [] title) else d in
  (lines = [] → convert_page force d page = d) ∧
  (lines ≠ [] →
   ¬ titled_outline_or_summary page →
   ∃ body,
     convert_page force d page = d ++ body ++ [BlankSeparator] ∧
     Forall inked body ∧
     ¬ inked BlankSeparator ∧
     ∀ cb, current_bullet (page_loop title levels force d1 lines) = Some cb →
           ∃ p, last body = Some p ∧ paragraph_text p = strip cb).
Proof.
  intros lines levels title d1. split.
  { intros Hnil. unfold convert_page. fold lines. by rewrite Hnil. }
  intros Hlines Hkeep.
  rewrite (convert_page_kept force d page Hlines Hkeep).
  fold lines. fold title. fold levels. fold d1.
  assert (page_inv d (mkPageState d1 None 0 0)) as Hinit.
  { split; [|done]. simpl. subst d1.
    destruct title as [t|] eqn:Et; [|exists []; by rewrite app_nil_r].
    rewrite (truthy_title page t Et). simpl.
    destruct (add_bold_line_text d t) as (p & -> & Hp).
    exists [p]. split; [done|]. apply Forall_singleton.
    unfold inked. rewrite Hp. by apply (title_is_inked page). }
  assert (Forall (λ ln, nonblank ln = true) lines) as Hink.
  { apply Forall_forall. intros ln Hin.
    by apply (normalize_lines_nonblank (page_text page)). }
  pose proof (page_loop_inv d title levels force lines _ Hink Hinit) as Hloop.
  fold (page_loop title levels force d1 lines) in Hloop.
  destruct (flush_bullet_inv d _ Hloop) as [[(body & Hd & Hb) _] _].
  exists body. split; [by rewrite Hd, app_assoc|].
  split; [done|]. split; [done|].
  intros cb Hcb. destruct Hloop as [(body0 & Hd0 & _) Hopen].
  destruct (flush_bullet_open _ cb Hcb (Hopen cb Hcb)) as (p & Hp & Htext).
  exists p. split; [|done].
  rewrite Hp, Hd0, <- app_assoc in Hd. apply app_inv_head in Hd.
  rewrite <- Hd. apply last_snoc.
Qed.

(** C10. On a page with a title, a line equal to the title changes nothing
    in the loop over the lines, so the page's output is the title paragraph
    followed by what the loop makes of the other lines; further copies of
    the title are never bullets, headings or continuations. *)
Theorem title_duplicates_emit_nothing (force : bool) (d : list Paragraph)
    (page : Page) (t : str) :
  let lines := normalize_lines (page_text page) in
  let levels := _levels_for_bullets_on_page (page_bullet_xs page) in
  find_title lines = Some t →
  (∀ st, line_step (Some t) levels force st t = st) ∧
  (¬ titled_outline_or_summary page →
   convert_page force d page
   = doc (flush_bullet
            (page_loop (Some t) levels force (add_bold_line d t)
               (filter (λ ln, ln ≠ t) lines)))
     ++ [BlankSeparator]).
Proof.
  intros lines levels Ht.
  assert (t ≠ []) as Hne.
  { apply nonblank_not_nil. by apply (title_is_inked page). }
  split; [intros st; by apply line_step_title|].
  intros Hkeep.
  assert (lines ≠ []) as Hlines by (intros Hnil; by rewrite Hnil in Ht).
  rewrite (convert_page_kept force d page Hlines Hkeep).
  fold lines. fold levels. rewrite Ht, (truthy_title page t Ht). simpl.
  unfold page_loop.
  by rewrite (page_loop_skips_title t levels force lines _ Hne).
Qed.

End PageAssembly.

(** A page "Outline / - a / - b" is skipped. *)
Lemma outline_and_summary_pages_emit_nothing_witness :
  let page := Convert.mkPage
                (lit "Outline" ++ [10%N] ++ lit "- a" ++ [10%N] ++ lit "- b")
                [] in
  @Convert.titled_outline_or_summary basic_unicode page ∧
  @Convert.convert_page basic_unicode false [] page = [].
Proof.
  intros page.
  assert (@Convert.titled_outline_or_summary basic_unicode page) as Hpage.
  { exists (lit "Outline"). split; [reflexivity | left; reflexivity]. }
  split; [exact Hpage|].
  apply (@outline_and_summary_pages_emit_nothing basic_unicode false [] page
           Hpage).
Defined.

(** A page "Intro / - First" ends with its one blank separator, and a
    page that holds a page number and a mail address only, "12 / a@b",
    adds nothing. *)
Lemma kept_page_ends_with_one_blank_witness :
  let page := Convert.mkPage (lit "Intro" ++ [10%N] ++ lit "- First") [] in
  let noise := Convert.mkPage (lit "12" ++ [10%N] ++ lit "a@b") [] in
  (@Convert.normalize_lines basic_unicode (Convert.page_text page) ≠ [] ∧
   ¬ @Convert.titled_outline_or_summary basic_unicode page ∧
   ∃ body, @Convert.convert_page basic_unicode false [] page
           = [] ++ body ++ [Convert.BlankSeparator]) ∧
  (@Convert.normalize_lines basic_unicode (Convert.page_text noise) = [] ∧
   @Convert.convert_page basic_unicode false [] noise = []).
Proof.
  intros page noise. split.
  - assert (@Convert.normalize_lines basic_unicode (Convert.page_text page)
            ≠ []) as Hlines by (vm_compute; discriminate).
    assert (¬ @Convert.titled_outline_or_summary basic_unicode page) as Hkeep.
    { intros (t & Ht & Hname). vm_compute in Ht. injection Ht as <-.
      vm_compute in Hname. destruct Hname; discriminate. }
    split; [exact Hlines|]. split; [exact Hkeep|].
    destruct (proj2 (@kept_page_ends_with_one_blank basic_unicode false []
                       page) Hlines Hkeep) as (body & Hout & _).
    exists body. exact Hout.
  - assert (@Convert.normalize_lines basic_unicode (Convert.page_text noise)
            = []) as Hnil by reflexivity.
    split; [exact Hnil|].
    exact (proj1 (@kept_page_ends_with_one_blank basic_unicode false []
                    noise) Hnil).
Defined.

(** C9 as the specification states it fails. A page without text is not an Outline
    or Summary page, and it adds nothing at all, no blank separator
    either. *)
Lemma empty_page_has_no_separator :
  ¬ ∀ (U : UnicodeData) (force : bool) (d : list Paragraph)
      (page : Convert.Page),
      ¬ Convert.titled_outline_or_summary page →
      ∃ body, Convert.convert_page force d page
              = d ++ body ++ [Convert.BlankSeparator].
Proof.
  intros Hclaim.
  destruct (Hclaim basic_unicode false [] (Convert.mkPage [] []))
    as (body & Hout).
  { intros (t & Ht & _). vm_compute in Ht. discriminate. }
  vm_compute in Hout. by destruct body.
Qed.

(** On the page "Intro / - First / Intro / - Second" the second "Intro"
    is passed over. *)
Lemma title_duplicates_emit_nothing_witness :
  let page := Convert.mkPage
                (lit "Intro" ++ [10%N] ++ lit "- First" ++ [10%N]
                 ++ lit "Intro" ++ [10%N] ++ lit "- Second") [] in
  @Convert.find_title basic_unicode
    (@Convert.normalize_lines basic_unicode (Convert.page_text page))
  = Some (lit "Intro") ∧
  ∀ st, @Convert.line_step basic_unicode (Some (lit "Intro")) [] false st
          (lit "Intro") = st.
Proof.
  intros page.
  assert (@Convert.find_title basic_unicode
            (@Convert.normalize_lines basic_unicode (Convert.page_text page))
          = Some (lit "Intro")) as Ht by reflexivity.
  split; [exact Ht|].
  apply (@title_duplicates_emit_nothing basic_unicode false [] page
           (lit "Intro") Ht).
Defined.

(** The same page gives the title, the two bullets and the separator. *)
Example duplicate_title_page :
  paragraph_text <$>
    @Convert.convert_page basic_unicode false []
      (Convert.mkPage
         (lit "Intro" ++ [10%N] ++ lit "- First" ++ [10%N]
          ++ lit "Intro" ++ [10%N] ++ lit "- Second") [])
  = [lit "Intro"; lit "First"; lit "Second"; []].
Proof. reflexivity. Qed.

(** With no glyph geometry, a continuation line joins the bullet above. *)
Example scenario_continuation :
  (λ p, (paragraph_text p, style_name p)) <$>
    @Convert.convert_page basic_unicode false []
      (Convert.mkPage
         (lit "Intro" ++ [10%N; 8226%N] ++ lit " First point" ++ [10%N]
          ++ lit "  continuation of first" ++ [10%N; 8226%N]
          ++ lit " Second point") [])
  = [(lit "Intro", lit "Normal");
     (lit "First point continuation of first", lit "List Bullet");
     (lit "Second point", lit "List Bullet");
     ([], lit "Normal")].
Proof. reflexivity. Qed.

(** With every line a bullet, each plain line under "Heading:" is a
    level-0 bullet of its own. *)
Example scenario_all_bullets :
  (λ p, (paragraph_text p, style_name p)) <$>
    @Convert.convert_page basic_unicode true []
      (Convert.mkPage
         (lit "Heading:" ++ [10%N] ++ lit "plain line one" ++ [10%N]
          ++ lit "plain line two") [])
  = [(lit "Heading:", lit "Normal");
     (lit "plain line one", lit "List Bullet");
     (lit "plain line two", lit "List Bullet");
     ([], lit "Normal")].
Proof. reflexivity. Qed.

(** ** Orphan headings *)

Section Orphans.
Import Convert.

Lemma bullet_is_not_heading (p : Paragraph) :
  is_bullet p = true → is_heading p = false.
Proof. intros Hb. unfold is_heading. rewrite Hb. by destruct (negb _). Qed.

Lemma has_bullet_iff (below : list Paragraph) :
  has_bullet below = true ↔
  ∃ j q, below !! j = Some q ∧ is_bullet q = true ∧
         ∀ k r, k < j → below !! k = Some r → is_heading r = false.
Proof.
  induction below as [|nxt below IH]; simpl.
  { split; [done|]. by intros (j & q & Hj & _). }
  destruct (is_heading nxt) eqn:Hh.
  { split; [done|]. intros (j & q & Hj & Hq & Hbefore).
    destruct j as [|j].
    - injection Hj as <-. apply bullet_is_not_heading in Hq. congruence.
    - specialize (Hbefore 0 nxt ltac:(lia) eq_refl). congruence. }
  destruct (is_bullet nxt) eqn:Hb.
  { split; [|done]. intros _. exists 0, nxt.
    split; [done|]. split; [done|]. intros; lia. }
  rewrite IH. split.
  - intros (j & q & Hj & Hq & Hbefore). exists (S j), q.
    split; [done|]. split; [done|].
    intros [|k] r Hk Hr; [by injection Hr as <-|].
    apply (Hbefore k); [lia | done].
  - intros (j & q & Hj & Hq & Hbefore). destruct j as [|j].
    { injection Hj as <-. congruence. }
    exists j, q. split; [done|]. split; [done|].
    intros k r Hk Hr. apply (Hbefore (S k)); [lia | done].
Qed.

Lemma bullet_before_next_heading_iff (paras : list Paragraph) (i : nat) :
  bullet_before_next_heading paras i ↔
  has_bullet (drop (S i) paras) = true.
Proof.
  rewrite has_bullet_iff. unfold bullet_before_next_heading. split.
  - intros (j & q & Hij & Hj & Hq & Hbetween).
    exists (j - S i), q. split; [|split; [done|]].
    + rewrite lookup_drop. by replace (S i + (j - S i)) with j by lia.
    + intros k r Hk Hr. rewrite lookup_drop in Hr.
      apply (Hbetween (S i + k)); [lia | done].
  - intros (j & q & Hj & Hq & Hbefore). rewrite lookup_drop in Hj.
    exists (S i + j), q. split; [lia|]. split; [done|]. split; [done|].
    intros k r Hk Hr. apply (Hbefore (k - S i)); [lia|].
    rewrite lookup_drop. by replace (S i + (k - S i)) with k by lia.
Qed.

Lemma to_delete_from_elem (paras : list Paragraph) (i n : nat) :
  n ∈ to_delete_from i paras ↔
  ∃ k p, n = i + k ∧ paras !! k = Some p ∧ is_heading p = true ∧
         has_bullet (drop (S k) paras) = false.
Proof.
  revert i. induction paras as [|p below IH]; intros i; simpl.
  { split; [by intros ?%elem_of_nil | by intros (k & q & _ & Hk & _)]. }
  assert (n ∈ to_delete_from (S i) below ↔
          ∃ k q, n = i + S k ∧ below !! k = Some q ∧ is_heading q = true ∧
                 has_bullet (drop (S k) below) = false) as Htail.
  { rewrite IH. split; intros (k & q & -> & Hrest); exists k, q;
      (split; [lia | done]). }
  destruct (is_heading p && negb (has_bullet below)) eqn:Hdel.
  - rewrite elem_of_cons, Htail.
    apply andb_true_iff in Hdel as [Hh Hb]. apply negb_true_iff in Hb.
    split.
    + intros [-> | (k & q & -> & Hrest)].
      * exists 0, p. rewrite Nat.add_0_r. by rewrite drop_0.
      * by exists (S k), q.
    + intros (k & q & -> & Hk & Hrest). destruct k as [|k].
      * left. lia.
      * right. by exists k, q.
  - rewrite Htail. split.
    + intros (k & q & -> & Hrest). by exists (S k), q.
    + intros (k & q & -> & Hk & Hq & Hb). destruct k as [|k].
      * injection Hk as <-. rewrite drop_0 in Hb.
        by rewrite Hq, Hb in Hdel.
      * by exists k, q.
Qed.

Lemma to_delete_from_ge (paras : list Paragraph) (i n : nat) :
  n ∈ to_delete_from i paras → i ≤ n.
Proof. rewrite to_delete_from_elem. intros (k & p & -> & _). lia. Qed.

(** The survivors of the deletions, read off by index; [i] is the index
    of the first paragraph of [paras] in the whole stream. *)
Lemma survivors_cons (idxs : list nat) (i : nat) (p : Paragraph)
    (below : list Paragraph) :
  List.filter (λ ip, negb (bool_decide (ip.1 ∈ idxs)))
    (imap (λ k q, (i + k, q)) (p :: below))
  = (if bool_decide (i ∈ idxs) then [] else [(i, p)])
    ++ List.filter (λ ip, negb (bool_decide (ip.1 ∈ idxs)))
         (imap (λ k q, (S i + k, q)) below).
Proof.
  rewrite imap_cons. cbn [List.filter fst]. rewrite Nat.add_0_r.
  rewrite (imap_ext _ (λ k q, (S i + k, q)) below)
    by (intros; simpl; f_equal; lia).
  by destruct (bool_decide (i ∈ idxs)).
Qed.

Lemma survivors_skip_head (idxs : list nat) (i : nat)
    (below : list Paragraph) :
  List.filter (λ ip, negb (bool_decide (ip.1 ∈ i :: idxs)))
    (imap (λ k q, (S i + k, q)) below)
  = List.filter (λ ip, negb (bool_decide (ip.1 ∈ idxs)))
      (imap (λ k q, (S i + k, q)) below).
Proof.
  apply filter_ext_in. intros [n q] Hin. f_equal. simpl.
  apply list_elem_of_In, elem_of_lookup_imap in Hin
    as (k & r & [= -> ->] & _).
  apply bool_decide_ext. rewrite elem_of_cons. split; [|auto].
  intros [? | ?]; [lia | done].
Qed.

Lemma remove_paragraphs_from (pre paras : list Paragraph) :
  remove_paragraphs (to_delete_from (length pre) paras) (pre ++ paras)
  = pre ++ (snd <$> List.filter
              (λ ip, negb (bool_decide
                             (ip.1 ∈ to_delete_from (length pre) paras)))
              (imap (λ k q, (length pre + k, q)) paras)).
Proof.
  unfold remove_paragraphs. revert pre.
  induction paras as [|p below IH]; intros pre; [done|].
  specialize (IH (pre ++ [p])).
  rewrite length_app, Nat.add_1_r, <- app_assoc in IH. simpl in IH.
  rewrite survivors_cons. cbn [to_delete_from].
  destruct (is_heading p && negb (has_bullet below)).
  - rewrite reverse_cons, foldl_app, IH. simpl.
    rewrite bool_decide_eq_true_2 by left. simpl.
    rewrite survivors_skip_head.
    rewrite <- app_assoc. simpl. by rewrite delete_middle.
  - rewrite IH.
    rewrite bool_decide_eq_false_2; [by rewrite <- app_assoc|].
    intros Hin%to_delete_from_ge. lia.
Qed.

Lemma remove_paragraphs_omit (paras : list Paragraph) :
  remove_paragraphs (to_delete_idxs paras) paras
  = omit (to_delete_idxs paras) paras.
Proof. apply (remove_paragraphs_from [] paras). Qed.

Lemma restyle_step_text (b : bool) (p : Paragraph) :
  paragraph_text (restyle_step b p).2 = paragraph_text p.
Proof.
  assert (∀ rs : list Run, text <$> (aptos_12 <$> rs) = text <$> rs) as Ha.
  { intros rs. rewrite <- list_fmap_compose. by apply list_fmap_ext. }
  assert (∀ rs : list Run, text <$> (keep_bold <$> rs) = text <$> rs) as Hk.
  { intros rs. rewrite <- list_fmap_compose. apply list_fmap_ext.
    intros _ r _. unfold keep_bold. simpl. by destruct (nonblank _). }
  unfold restyle_step, paragraph_text.
  repeat match goal with |- context [if ?c then _ else _] => destruct c end;
    simpl; apply text_from_ext; by rewrite ?Ha, ?Hk.
Qed.

Lemma restyle_text (b : bool) (paras : list Paragraph) :
  paragraph_text <$> restyle b paras = paragraph_text <$> paras.
Proof.
  revert b. induction paras as [|p rest IH]; intros b; [done|]. simpl.
  pose proof (restyle_step_text b p) as Hp.
  destruct (restyle_step b p) as [b' p']. simpl in *. by rewrite Hp, IH.
Qed.

(** C7. A heading with no bullet between it and the next heading, or the
    end of the stream, is on the deletion list, and a heading with a bullet
    before the next heading is not; only headings are on the list; the
    postprocessor's output is the restyled stream without the listed
    paragraphs, with every surviving text as it was. *)
Theorem orphan_headings_removed (paras : list Paragraph) :
  (∀ i p, paras !! i = Some p → is_heading p = true →
     (i ∈ to_delete_idxs paras ↔ ¬ bullet_before_next_heading paras i)) ∧
  (∀ i, i ∈ to_delete_idxs paras →
     ∃ p, paras !! i = Some p ∧ is_heading p = true) ∧
  postprocess_formatting paras
  = restyle false (omit (to_delete_idxs paras) paras) ∧
  paragraph_text <$> postprocess_formatting paras
  = paragraph_text <$> omit (to_delete_idxs paras) paras.
Proof.
  split; [|split; [|split]].
  - intros i p Hi Hp. unfold to_delete_idxs.
    rewrite to_delete_from_elem, bullet_before_next_heading_iff.
    rewrite not_true_iff_false. split.
    + by intros (k & q & -> & _ & _ & Hb).
    + intros Hb. by exists i, p.
  - intros i (k & p & -> & Hk & Hp & _)%to_delete_from_elem. by exists p.
  - unfold postprocess_formatting. by rewrite remove_paragraphs_omit.
  - unfold postprocess_formatting.
    by rewrite restyle_text, remove_paragraphs_omit.
Qed.

End Orphans.

(** Of the headings "A" and "B" followed by one bullet, "A" is an orphan
    and "B" is kept. *)
Lemma orphan_headings_removed_witness :
  let paras :=
    Convert.add_bullet
      (Convert.add_bold_line (Convert.add_bold_line [] (lit "A")) (lit "B"))
      (lit "x") 0 in
  (0 ∈ Convert.to_delete_idxs paras ∧ 1 ∉ Convert.to_delete_idxs paras) ∧
  paragraph_text <$> Convert.postprocess_formatting paras
  = paragraph_text <$> Convert.omit (Convert.to_delete_idxs paras) paras.
Proof.
  intros paras. split.
  - split; [by left | vm_compute; by intros [?|?%elem_of_nil]%elem_of_cons].
  - apply (orphan_headings_removed paras).
Defined.

Example orphan_heading_stream :
  paragraph_text <$>
    Convert.postprocess_formatting
      (Convert.add_bullet
         (Convert.add_bold_line (Convert.add_bold_line [] (lit "A")) (lit "B"))
         (lit "x") 0)
  = [lit "B"; lit "x"].
Proof. reflexivity. Qed.

(** ** Running the postprocessor twice *)

Section Twice.
Import Convert.

Lemma all_text_runs_bold_aptos (any : bool) (rs : list Run) :
  all_text_runs_bold any (aptos_12 <$> rs) = all_text_runs_bold any rs.
Proof.
  revert any. induction rs as [|r rs IH]; intros any; [done|]. simpl.
  destruct (nonblank (text r)); [|apply IH].
  case_bool_decide; [apply IH | done].
Qed.

Lemma aptos_12_twice (rs : list Run) :
  aptos_12 <$> (aptos_12 <$> rs) = aptos_12 <$> rs.
Proof. rewrite <- list_fmap_compose. by apply list_fmap_ext. Qed.

Lemma is_heading_enforce (p : Paragraph) :
  is_heading (enforce_aptos_12 p) = is_heading p.
Proof.
  unfold is_heading, is_bullet, enforce_aptos_12, paragraph_text, style_name.
  simpl. rewrite all_text_runs_bold_aptos.
  rewrite (text_from_ext 0 (aptos_12 <$> runs p) (runs p)); [done|].
  rewrite <- list_fmap_compose. by apply list_fmap_ext.
Qed.

Lemma to_list_bullet_canonical (p : Paragraph) (lvl : Z) :
  canonical (to_list_bullet p lvl).
Proof.
  split; [by apply bullet_is_not_heading|]. split; [|done].
  simpl. apply aptos_12_twice.
Qed.

Lemma restyle_step_canonical (b : bool) (p : Paragraph) :
  canonical (restyle_step b p).2.
Proof.
  unfold restyle_step.
  destruct (is_heading p) eqn:Hh.
  { split; [by apply bullet_is_not_heading|]. split; [|done].
    simpl. apply aptos_12_twice. }
  destruct (b && is_bullet p); [apply to_list_bullet_canonical|].
  destruct (is_bullet p) eqn:Hb; [apply to_list_bullet_canonical|].
  simpl. split; [by rewrite is_heading_enforce|].
  split; [apply aptos_12_twice|].
  intros Hb'. unfold is_bullet, style_name in *. simpl in Hb'. congruence.
Qed.

Lemma restyle_canonical (b : bool) (paras : list Paragraph) :
  Forall canonical (restyle b paras).
Proof.
  revert b. induction paras as [|p rest IH]; intros b; simpl; [done|].
  pose proof (restyle_step_canonical b p) as Hp.
  destruct (restyle_step b p) as [b' p']. by constructor.
Qed.

Lemma canonical_nothing_to_delete (paras : list Paragraph) (i : nat) :
  Forall canonical paras → to_delete_from i paras = [].
Proof.
  intros Hc. revert i.
  induction Hc as [|p rest [Hh _] _ IH]; intros i; [done|]. simpl.
  rewrite Hh. simpl. apply IH.
Qed.

Lemma restyle_step_of_canonical (p : Paragraph) :
  canonical p → restyle_step false p = (false, reset_to_level_0 p).
Proof.
  intros (Hh & Hfont & Hlist). unfold restyle_step, reset_to_level_0.
  rewrite Hh. cbn [andb].
  assert (∀ a c : bool,
            (if a then false else if c then false else false) = false)
    as -> by (by intros [] []).
  destruct (is_bullet p) eqn:Hb; f_equal.
  - destruct (Hlist eq_refl) as [Hstyle Hfirst].
    unfold style_name. rewrite Hstyle.
    destruct p; simpl in *. subst.
    unfold to_list_bullet, enforce_aptos_12, set_runs. simpl.
    by rewrite Hfont.
  - destruct p; simpl in *. unfold enforce_aptos_12, set_runs.
    simpl. by rewrite Hfont.
Qed.

Lemma restyle_of_canonical (paras : list Paragraph) :
  Forall canonical paras → restyle false paras = reset_to_level_0 <$> paras.
Proof.
  induction 1 as [|p rest Hp _ IH]; [done|]. simpl.
  by rewrite (restyle_step_of_canonical p Hp), IH.
Qed.

Lemma postprocess_second_run (paras : list Paragraph) :
  postprocess_formatting (postprocess_formatting paras)
  = reset_to_level_0 <$> postprocess_formatting paras.
Proof.
  assert (Forall canonical (postprocess_formatting paras)) as Hc
    by apply restyle_canonical.
  unfold postprocess_formatting at 1. unfold to_delete_idxs.
  rewrite (canonical_nothing_to_delete _ 0 Hc).
  by apply restyle_of_canonical.
Qed.

Lemma reset_to_level_0_twice (p : Paragraph) :
  reset_to_level_0 (reset_to_level_0 p) = reset_to_level_0 p.
Proof.
  unfold reset_to_level_0. destruct (is_bullet p) eqn:Hb; [|by rewrite Hb].
  by replace (is_bullet (set_left_indent (Some BASE_LEFT) p)) with true.
Qed.

(** From the second run on the postprocessor changes nothing. *)
Lemma postprocess_stable_after_two_runs (paras : list Paragraph) :
  postprocess_formatting
    (postprocess_formatting (postprocess_formatting paras))
  = postprocess_formatting (postprocess_formatting paras).
Proof.
  rewrite (postprocess_second_run (postprocess_formatting paras)).
  rewrite (postprocess_second_run paras), <- list_fmap_compose.
  apply list_fmap_ext. intros _ p _. apply reset_to_level_0_twice.
Qed.

(** C2, for the code as written. A second run of the postprocessor on its own
    output deletes nothing and leaves every paragraph as it is, except that
    a list paragraph gets the left indent of level 0 again: text, style,
    bold flags and first-line indent are stable, and so is the left indent
    of every paragraph that is not a list paragraph or stands at level 0. *)
Theorem postprocess_twice (paras : list Paragraph) :
  let once := postprocess_formatting paras in
  let twice := postprocess_formatting once in
  twice = reset_to_level_0 <$> once ∧
  Forall2 (λ p q,
             runs q = runs p ∧ pStyle q = pStyle p ∧
             first_line_indent q = first_line_indent p ∧
             (is_bullet p = false ∨ left_indent p = Some BASE_LEFT →
              left_indent q = left_indent p) ∧
             (is_bullet p = true → left_indent q = Some BASE_LEFT))
    once twice.
Proof.
  intros once twice.
  assert (twice = reset_to_level_0 <$> once) as Ht
    by apply postprocess_second_run.
  split; [done|]. rewrite Ht.
  apply Forall2_fmap_r, Forall_Forall2_diag, Forall_forall.
  intros p _. unfold reset_to_level_0. simpl.
  destruct (is_bullet p) eqn:Hb; simpl.
  - do 3 (split; [done|]). split; [|done].
    intros [? | Hl]; [done | by rewrite Hl].
  - do 3 (split; [done|]). split; done.
Qed.

End Twice.

(** C2 as the specification states it fails. The postprocessor turns a level-1
    bullet ("List Bullet 2") into a "List Bullet" paragraph indented by 36
    points; a second run reads level 0 off the style name and indents it
    by 18 points. *)
Lemma postprocess_not_idempotent :
  ¬ ∀ paras : list Paragraph,
      Convert.formatting_view
        <$> Convert.postprocess_formatting
              (Convert.postprocess_formatting paras)
      = Convert.formatting_view <$> Convert.postprocess_formatting paras.
Proof.
  intros Hclaim.
  specialize (Hclaim (Convert.add_bullet [] (lit "x") 1)).
  vm_compute in Hclaim. discriminate.
Qed.

(** On a heading with a level-1 bullet below it, the second run only
    re-indents. *)
Lemma postprocess_twice_witness :
  let paras := Convert.add_bullet (Convert.add_bold_line [] (lit "A"))
                 (lit "x") 1 in
  Convert.postprocess_formatting (Convert.postprocess_formatting paras)
  = Convert.reset_to_level_0 <$> Convert.postprocess_formatting paras.
Proof.
  intros paras. apply (postprocess_twice paras).
Defined.

Example second_run_flattens :
  left_indent <$> Convert.postprocess_formatting
                    (Convert.add_bullet [] (lit "x") 1) = [Some (Pt (Q2Qc 36))]
  ∧ left_indent <$> Convert.postprocess_formatting
                      (Convert.postprocess_formatting
                         (Convert.add_bullet [] (lit "x") 1))
    = [Some (Pt (Q2Qc 18))].
Proof. split; reflexivity. Qed.

(** ** The template remapper *)

Section Remap.
Import Reindent.

Lemma infer_level_range (sp : Paragraph) :
  (0 ≤ infer_level_from_indent sp ≤ 2)%Z.
Proof. unfold infer_level_from_indent. destruct (left_indent sp); lia. Qed.

Lemma remap_loop (template_styles : list str) (src out : list Paragraph) :
  foldl (remap_step template_styles) out src
  = out ++ (remap_paragraph template_styles
              <$> filter (λ sp, nonblank (paragraph_text sp) = true) src).
Proof.
  revert out. induction src as [|sp src IH]; intros out; simpl.
  { by rewrite app_nil_r. }
  rewrite IH, filter_cons. unfold remap_step.
  case_decide as Hn.
  - rewrite Hn. simpl. by rewrite <- app_assoc.
  - apply not_true_is_false in Hn. by rewrite Hn.
Qed.

Lemma copy_runs_keeps_frame (sp dp : Paragraph) :
  numPr (copy_runs_force_not_bold sp dp) = numPr dp ∧
  pStyle (copy_runs_force_not_bold sp dp) = pStyle dp.
Proof.
  unfold copy_runs_force_not_bold.
  destruct (runs sp); [destruct (paragraph_text sp)|]; done.
Qed.

(** C8. The remapper makes one output paragraph for each source paragraph
    with text, in order; the one made for a list-like paragraph carries
    the fixed numbering id at the inferred level, whether the template has
    the style "List Paragraph" or not, and without that style the
    paragraph is left unstyled. *)
Theorem list_paragraphs_keep_numbering (template_styles : list str)
    (src : list Paragraph) :
  apply_template_bullets src template_styles
  = remap_paragraph template_styles
      <$> filter (λ sp, nonblank (paragraph_text sp) = true) src ∧
  ∀ sp, is_list_like sp = true →
    numPr (remap_paragraph template_styles sp)
    = Some (infer_level_from_indent sp, TEMPLATE_NUM_ID) ∧
    (TEMPLATE_LIST_STYLE ∉ template_styles →
     pStyle (remap_paragraph template_styles sp) = None) ∧
    (TEMPLATE_LIST_STYLE ∈ template_styles →
     pStyle (remap_paragraph template_styles sp) = Some TEMPLATE_LIST_STYLE).
Proof.
  split; [apply (remap_loop template_styles src [])|].
  intros sp Hlist. unfold remap_paragraph. rewrite Hlist.
  pose proof (infer_level_range sp) as Hr.
  unfold font_and_bold_off. cbn [numPr pStyle set_runs].
  destruct (copy_runs_keeps_frame sp
              (clear_direct_paragraph_formatting
                 (set_paragraph_numbering
                    (if bool_decide (TEMPLATE_LIST_STYLE ∈ template_styles)
                     then set_style TEMPLATE_LIST_STYLE (add_paragraph [] None)
                     else add_paragraph [] None)
                    TEMPLATE_NUM_ID (infer_level_from_indent sp))))
    as [-> ->].
  split; [|split].
  - simpl. do 2 f_equal. lia.
  - intros Hno. by rewrite bool_decide_eq_false_2.
  - intros Hyes. by rewrite bool_decide_eq_true_2.
Qed.

End Remap.

(** A paragraph indented by 36 points with a hanging indent, remapped with
    a template that has no list style, is bound to numbering 1 at level 1
    and loses its bold. *)
Lemma list_paragraphs_keep_numbering_witness :
  let sp := set_first_line_indent (Some (Pt (Q2Qc (-18))))
              (set_left_indent (Some (Pt (Q2Qc 36)))
                 (set_runs [set_bold (Some true) (new_run (lit "x"))]
                    (add_paragraph [] None))) in
  Reindent.is_list_like sp = true ∧
  numPr (Reindent.remap_paragraph [] sp) = Some (1%Z, 1%Z) ∧
  pStyle (Reindent.remap_paragraph [] sp) = None.
Proof.
  intros sp.
  assert (Reindent.is_list_like sp = true) as Hlist by reflexivity.
  split; [exact Hlist|].
  destruct (list_paragraphs_keep_numbering [] [sp]) as [_ Hsp].
  destruct (Hsp sp Hlist) as (Hnum & Hstyle & _).
  split; [exact Hnum|]. apply Hstyle. by intros ?%elem_of_nil.
Defined.

Example remap_scenario :
  let sp := set_first_line_indent (Some (Pt (Q2Qc (-18))))
              (set_left_indent (Some (Pt (Q2Qc 36)))
                 (set_runs [set_bold (Some true) (new_run (lit "x"))]
                    (add_paragraph [] None))) in
  (λ dp, (numPr dp, bold <$> runs dp, paragraph_text dp))
    <$> Reindent.apply_template_bullets [sp; add_paragraph [] None] []
  = [(Some (1%Z, 1%Z), [Some false], lit "x")].
Proof. reflexivity. Qed.

(** ** The two programs in sequence *)

(** A page with a title and bullets at two depths: the postprocessor turns
    the title into a level-0 bullet and moves the bullets below it one
    level down, and the remapper reads those levels back from the indents. *)
Example end_to_end_levels :
  (λ dp, (paragraph_text dp, numPr dp)) <$>
    Reindent.apply_template_bullets
      (@Convert.convert basic_unicode
         [Convert.mkPage
            (lit "Intro" ++ [10%N] ++ lit "- First" ++ [10%N]
             ++ lit "- Second")
            [Q2Qc 50; Q2Qc 90]]
         false)
      [Reindent.TEMPLATE_LIST_STYLE]
  = [(lit "Intro", Some (0, 1)%Z);
     (lit "First", Some (1, 1)%Z);
     (lit "Second", Some (2, 1)%Z)].
Proof. reflexivity. Qed.

(** ** Trimming *)

Section Trimming.

Lemma lstrip_app_ws (pre s : str) :
  has_ink pre = false → lstrip (pre ++ s) = lstrip s.
Proof.
  induction pre as [|c pre IH]; [done|]. simpl.
  destruct (isspace c); simpl; [auto | done].
Qed.

Lemma lstrip_decomp (s : str) :
  ∃ pre, s = pre ++ lstrip s ∧ has_ink pre = false.
Proof.
  induction s as [|c s (pre & Hs & Hpre)]; [by exists []|]. simpl.
  destruct (isspace c) eqn:Hc.
  - exists (c :: pre). split; [by rewrite <- app_comm_cons, <- Hs|].
    simpl. by rewrite Hc.
  - by exists [].
Qed.

Lemma lstrip_head (s r : str) (c : char) :
  lstrip s = c :: r → isspace c = false.
Proof.
  induction s as [|a s IH]; [done|]. simpl.
  destruct (isspace a) eqn:Ha; [done|]. by intros [= <- _].
Qed.

Lemma lstrip_inked (c : char) (r : str) :
  isspace c = false → lstrip (c :: r) = c :: r.
Proof. intros Hc. simpl. by rewrite Hc. Qed.

Lemma lstrip_snoc_ink (r : str) (c : char) :
  isspace c = false → lstrip (r ++ [c]) = lstrip r ++ [c].
Proof.
  intros Hc. induction r as [|a r IH]; simpl; [by rewrite Hc|].
  by destruct (isspace a).
Qed.

Lemma lstrip_idem (s : str) : lstrip (lstrip s) = lstrip s.
Proof.
  destruct (lstrip s) as [|c r] eqn:Hs; [done|].
  apply lstrip_inked. by apply lstrip_head in Hs.
Qed.

Lemma rstrip_cons_ink (c : char) (s : str) :
  isspace c = false → rstrip (c :: s) = c :: rstrip s.
Proof.
  intros Hc. unfold rstrip.
  by rewrite reverse_cons, lstrip_snoc_ink, reverse_app.
Qed.

Lemma rstrip_snoc_ink (s : str) (c : char) :
  isspace c = false → rstrip (s ++ [c]) = s ++ [c].
Proof.
  intros Hc. unfold rstrip. rewrite reverse_app. simpl.
  rewrite Hc. by rewrite reverse_cons, reverse_involutive.
Qed.

Lemma rstrip_app_ws (s post : str) :
  has_ink post = false → rstrip (s ++ post) = rstrip s.
Proof.
  intros Hp. unfold rstrip. rewrite reverse_app, lstrip_app_ws; [done|].
  by rewrite has_ink_reverse.
Qed.

Lemma rstrip_decomp (s : str) :
  ∃ post, s = rstrip s ++ post ∧ has_ink post = false.
Proof.
  destruct (lstrip_decomp (reverse s)) as (pre & Hs & Hpre).
  exists (reverse pre). split; [|by rewrite has_ink_reverse].
  unfold rstrip. rewrite <- reverse_app, <- Hs. by rewrite reverse_involutive.
Qed.

Lemma rstrip_last (s : str) :
  rstrip s = [] ∨ ∃ r c, rstrip s = r ++ [c] ∧ isspace c = false.
Proof.
  unfold rstrip. destruct (lstrip (reverse s)) as [|c r] eqn:Hs; [by left|].
  right. exists (reverse r), c. split; [by rewrite reverse_cons|].
  by apply lstrip_head in Hs.
Qed.

Lemma rstrip_idem (s : str) : rstrip (rstrip s) = rstrip s.
Proof.
  destruct (rstrip_last s) as [-> | (r & c & -> & Hc)]; [done|].
  by apply rstrip_snoc_ink.
Qed.

Lemma rstrip_cons (a : char) (r : str) :
  rstrip (a :: r)
  = if has_ink r then a :: rstrip r
    else if isspace a then [] else [a].
Proof.
  destruct (has_ink r) eqn:Hr.
  - unfold rstrip. rewrite reverse_cons.
    destruct (lstrip (reverse r)) as [|c t] eqn:Ht.
    { apply lstrip_nil in Ht. rewrite has_ink_reverse in Ht. congruence. }
    destruct (lstrip_decomp (reverse r)) as (pre & Hrev & Hpre).
    rewrite Hrev, <- app_assoc, lstrip_app_ws by done. rewrite Ht. simpl.
    rewrite (lstrip_head _ _ _ Ht). by rewrite !reverse_cons, reverse_app.
  - replace (a :: r) with ([a] ++ r) by done.
    rewrite rstrip_app_ws by done. unfold rstrip. simpl.
    by destruct (isspace a).
Qed.

Lemma lstrip_rstrip_comm (s : str) : lstrip (rstrip s) = rstrip (lstrip s).
Proof.
  induction s as [|a s IH]; [done|].
  rewrite rstrip_cons. simpl. destruct (isspace a) eqn:Ha.
  - destruct (has_ink s) eqn:Hs.
    + simpl. by rewrite Ha.
    + simpl. symmetry. apply rstrip_nil. by rewrite has_ink_lstrip.
  - rewrite rstrip_cons. destruct (has_ink s); simpl; by rewrite Ha.
Qed.

Lemma strip_idem (s : str) : strip (strip s) = strip s.
Proof.
  unfold strip. by rewrite lstrip_rstrip_comm, lstrip_idem, rstrip_idem.
Qed.

(** A trimmed string is empty or starts and ends with ink. *)
Lemma strip_shape (s : str) :
  strip s = [] ∨
  (∃ c r, strip s = c :: r ∧ isspace c = false) ∧
  (∃ r c, strip s = r ++ [c] ∧ isspace c = false).
Proof.
  destruct (strip s) as [|c r] eqn:Hs; [by left|]. right. split.
  - exists c, r. split; [done|].
    unfold strip in Hs. rewrite <- lstrip_rstrip_comm in Hs.
    by apply lstrip_head in Hs.
  - unfold strip in Hs.
    destruct (rstrip_last (lstrip s)) as [Hn | (r' & c' & Hr & Hc)];
      [congruence|].
    exists r', c'. split; [congruence | done].
Qed.

End Trimming.

(** ** Bullet lines *)

Section BulletLines.
Import Convert.

Lemma bullet_char_is_ink (g : char) :
  is_bullet_char g = true → isspace g = false.
Proof.
  unfold is_bullet_char, BULLET_CHARS. simpl.
  rewrite !orb_true_iff, !N.eqb_eq.
  intros H; repeat (destruct H as [H | H]); subst; done.
Qed.

Lemma ws_cons (s : str) :
  s ≠ [] → has_ink s = false → ∃ w r, s = w :: r ∧ isspace w = true.
Proof.
  destruct s as [|w r]; [done|]. intros _ Hs. exists w, r. split; [done|].
  simpl in Hs. apply orb_false_iff in Hs as [Hw _].
  by apply negb_false_iff in Hw.
Qed.

Lemma trimmed_head (s : str) :
  s ≠ [] → strip s = s → ∃ c r, s = c :: r ∧ isspace c = false.
Proof.
  intros Hne Hs. destruct (strip_shape s) as [Hn | [(c & r & Hc & Hi) _]].
  - congruence.
  - exists c, r. by rewrite <- Hs.
Qed.

Lemma trimmed_last (s : str) :
  s ≠ [] → strip s = s → ∃ r c, s = r ++ [c] ∧ isspace c = false.
Proof.
  intros Hne Hs. destruct (strip_shape s) as [Hn | [_ (r & c & Hc & Hi)]].
  - congruence.
  - exists r, c. by rewrite <- Hs.
Qed.

Lemma strip_frame (pre m post : str) :
  has_ink pre = false → has_ink post = false → m ≠ [] → strip m = m →
  strip (pre ++ m ++ post) = m.
Proof.
  intros Hpre Hpost Hne Hm.
  destruct (trimmed_head m Hne Hm) as (c & r & Hc & Hi).
  destruct (trimmed_last m Hne Hm) as (r' & c' & Hc' & Hi').
  unfold strip. rewrite lstrip_app_ws by done.
  rewrite Hc at 1. rewrite <- app_comm_cons, lstrip_inked by done.
  rewrite app_comm_cons, <- Hc, rstrip_app_ws by done.
  rewrite Hc'. by apply rstrip_snoc_ink.
Qed.

Lemma bullet_text_iff_line (ln bt : str) :
  bullet_text ln = Some bt ↔ bullet_line ln bt.
Proof.
  unfold bullet_text, BULLET_RE_match. split.
  - destruct (lstrip_decomp ln) as (pre & Hln & Hpre).
    destruct (lstrip ln) as [|g rest] eqn:Hl; [done|].
    destruct (is_bullet_char g) eqn:Hg; [|done].
    destruct rest as [|w rest']; [done|].
    destruct (isspace w) eqn:Hw; [|done].
    set (rest := w :: rest') in *.
    destruct (lstrip_decomp rest) as (mid & Hrest & Hmid).
    destruct (rstrip_decomp (lstrip rest)) as (post & Hbody & Hpost).
    destruct (rstrip (lstrip rest)) as [|b body] eqn:Hb; [done|].
    destruct (contains 10%N (b :: body)) eqn:Hnl; [done|].
    simpl. intros [= <-].
    assert (strip (b :: body) = b :: body) as Hs.
    { rewrite <- Hb. unfold strip.
      by rewrite lstrip_rstrip_comm, lstrip_idem, rstrip_idem. }
    exists pre, g, mid, post. rewrite Hs.
    split; [by rewrite <- Hbody, <- Hrest|].
    do 2 (split; [done|]). split.
    { intros ->. simpl in Hrest.
      assert (isspace w = false); [|congruence].
      apply (lstrip_head rest rest'). exact (eq_sym Hrest). }
    by repeat split.
  - intros (pre & g & mid & post & -> & Hpre & Hg & Hmid & Hws & Hpost
            & Hne & Hs & Hnl).
    rewrite lstrip_app_ws by done. simpl.
    rewrite (bullet_char_is_ink g Hg), Hg.
    destruct (ws_cons mid Hmid Hws) as (w & r & -> & Hw).
    rewrite <- app_comm_cons, Hw.
    rewrite app_comm_cons, lstrip_app_ws by done.
    destruct (trimmed_head bt Hne Hs) as (c & t & Hc & Hi).
    destruct (trimmed_last bt Hne Hs) as (t' & c' & Hc' & Hi').
    assert (rstrip (lstrip (bt ++ post)) = bt) as ->.
    { rewrite Hc at 1. rewrite <- app_comm_cons, lstrip_inked by done.
      rewrite app_comm_cons, <- Hc, rstrip_app_ws by done.
      rewrite Hc'. by apply rstrip_snoc_ink. }
    destruct bt; [done|]. rewrite Hnl. simpl. by rewrite Hs.
Qed.

Lemma bullet_line_strip (ln bt : str) :
  bullet_line (strip ln) bt ↔ bullet_line ln bt.
Proof.
  split.
  - intros (pre & g & mid & post & Hln & Hpre & Hg & Hmid & Hws & Hpost
            & Hrest).
    destruct (lstrip_decomp ln) as (pre0 & Hl & Hpre0).
    destruct (rstrip_decomp (lstrip ln)) as (post0 & Hr & Hpost0).
    exists (pre0 ++ pre), g, mid, (post ++ post0).
    split; [|by rewrite !has_ink_app, Hpre, Hpre0, Hpost, Hpost0].
    rewrite Hl at 1. rewrite Hr. fold (strip ln). rewrite Hln.
    by rewrite <- !app_assoc.
  - intros (pre & g & mid & post & -> & Hpre & Hg & Hmid & Hws & Hpost
            & Hne & Hs & Hnl).
    exists [], g, mid, []. rewrite app_nil_r.
    split; [|by repeat split]. simpl.
    destruct (trimmed_last bt Hne Hs) as (t' & c' & Hc' & Hi').
    replace (pre ++ g :: mid ++ bt ++ post)
      with (pre ++ (g :: mid ++ bt) ++ post)
      by (by rewrite <- app_comm_cons, <- app_assoc).
    apply strip_frame; [done | done | done |].
    unfold strip. rewrite lstrip_inked by (by apply bullet_char_is_ink).
    rewrite Hc', app_assoc, app_comm_cons. by apply rstrip_snoc_ink.
Qed.

Lemma bullet_text_strip (ln : str) : bullet_text (strip ln) = bullet_text ln.
Proof.
  destruct (bullet_text ln) as [bt|] eqn:Hb.
  - apply bullet_text_iff_line, bullet_line_strip.
    by apply bullet_text_iff_line.
  - destruct (bullet_text (strip ln)) as [bt|] eqn:Hs; [|done].
    apply (proj1 (bullet_text_iff_line _ _)) in Hs.
    apply (proj1 (bullet_line_strip _ _)) in Hs.
    apply (proj2 (bullet_text_iff_line _ _)) in Hs. congruence.
Qed.

(** X1. [bullet_text] finds a payload exactly in the lines of the shape
    whitespace, glyph, whitespace, payload, whitespace; the payload it
    returns is that trimmed, one-line rest without the glyph, and
    whitespace around the line makes no difference. *)
Theorem bullet_text_shape (ln : str) :
  (∀ bt, bullet_text ln = Some bt ↔ bullet_line ln bt) ∧
  bullet_text (strip ln) = bullet_text ln.
Proof.
  split.
  - intros bt. apply bullet_text_iff_line.
  - apply bullet_text_strip.
Qed.

(** X2. Every line the text pass takes for a bullet is one the geometry
    pass counts as well, but not the other way round: "-5" starts with a
    glyph, so the geometry pass counts it, and the text pass does not. *)
Theorem bullet_lines_are_bullet_starts :
  (∀ ln bt, bullet_text ln = Some bt → _is_bullet_start_text ln = true) ∧
  (_is_bullet_start_text (lit "-5") = true ∧ bullet_text (lit "-5") = None).
Proof.
  split; [|done].
  intros ln bt. unfold bullet_text, BULLET_RE_match, _is_bullet_start_text.
  destruct ln as [|a ln']; [done|].
  destruct (lstrip (a :: ln')) as [|g rest]; [done|].
  by destruct (is_bullet_char g).
Qed.

End BulletLines.

(** ** Normalised lines *)

Section Lines.
Import Convert.
Context `{UnicodeData}.

Lemma collapse_ws_go_idem (s : str) :
  (∀ b, collapse_ws_go b (collapse_ws_go true s) = collapse_ws_go true s) ∧
  collapse_ws_go false (collapse_ws_go false s) = collapse_ws_go false s.
Proof.
  induction s as [|c s [IHt IHf]]; [done|]. simpl.
  destruct (isspace c) eqn:Hc.
  - split; [done|]. simpl. by rewrite IHt.
  - split; [intros b|]; simpl; by rewrite Hc, IHf.
Qed.

Lemma collapse_ws_go_snoc_ink (b : bool) (s : str) (c : char) :
  isspace c = false →
  collapse_ws_go b (s ++ [c]) = collapse_ws_go b s ++ [c].
Proof.
  intros Hc. revert b. induction s as [|a s IH]; intros b; simpl.
  { by rewrite Hc. }
  destruct (isspace a); [destruct b|]; by rewrite IH.
Qed.

Lemma collapse_ws_trimmed (t : str) :
  strip t = t → strip (collapse_ws t) = collapse_ws t.
Proof.
  intros Ht. destruct t as [|c0 t0] eqn:Et; [done|]. rewrite <- Et in *.
  assert (t ≠ []) as Hne by (by rewrite Et).
  destruct (trimmed_head t Hne Ht) as (c & r & Hc & Hi).
  destruct (trimmed_last t Hne Ht) as (r' & c' & Hc' & Hi').
  unfold strip, collapse_ws.
  assert (lstrip (collapse_ws_go false t) = collapse_ws_go false t) as ->.
  { rewrite Hc. simpl. rewrite Hi. simpl. by rewrite Hi. }
  rewrite Hc', collapse_ws_go_snoc_ink by done.
  by apply rstrip_snoc_ink.
Qed.

(** X3. Every line [normalize_lines] returns is not empty, has no
    whitespace at either end, has single spaces for all its inner
    whitespace, and is not footer noise: it is not a number and holds no
    "@". *)
Theorem normalize_lines_shape (text ln : str) :
  ln ∈ normalize_lines text →
  ln ≠ [] ∧ strip ln = ln ∧ collapse_ws ln = ln ∧
  is_footer_noise ln = false ∧ all_digits ln = false ∧
  contains 64%N ln = false.
Proof.
  unfold normalize_lines. intros Hin.
  apply list_elem_of_In, filter_In in Hin as [Hin Hf].
  apply andb_true_iff in Hf as [Hne Hnoise].
  apply negb_true_iff in Hnoise. apply negb_true_iff in Hne.
  apply bool_decide_eq_false in Hne.
  apply list_elem_of_In, list_elem_of_fmap in Hin as (raw & -> & _).
  assert (strip (collapse_ws (strip raw)) = collapse_ws (strip raw)) as Hs.
  { apply collapse_ws_trimmed, strip_idem. }
  split; [done|]. split; [done|].
  split; [apply (collapse_ws_go_idem (strip raw))|].
  split; [done|].
  unfold is_footer_noise in Hnoise. rewrite Hs in Hnoise.
  destruct (collapse_ws (strip raw)) as [|c l]; [done|].
  destruct (all_digits (c :: l)); [done|].
  by destruct (contains 64%N (c :: l)).
Qed.

(** X4. A line is never both a heading and a bullet line: whatever
    [looks_like_heading] accepts, [bullet_text] rejects. *)
Theorem heading_is_not_bullet (ln : str) :
  looks_like_heading ln = true → bullet_text ln = None.
Proof.
  intros Hh. rewrite <- bullet_text_strip.
  unfold looks_like_heading in Hh. unfold bullet_text.
  destruct (strip ln) as [|c l]; [done|].
  case_bool_decide as Hb; [done|].
  destruct (BULLET_RE_match (c :: l)) eqn:Hm; [|done].
  destruct Hb. by eexists.
Qed.

End Lines.

Lemma normalize_lines_shape_witness :
  lit "hello world"
    ∈ @Convert.normalize_lines basic_unicode
        (lit "  hello   world " ++ [10%N] ++ lit "12") ∧
  strip (lit "hello world") = lit "hello world".
Proof.
  assert (lit "hello world"
            ∈ @Convert.normalize_lines basic_unicode
                (lit "  hello   world " ++ [10%N] ++ lit "12")) as Hin.
  { vm_compute. left. }
  split; [exact Hin|].
  apply (@normalize_lines_shape basic_unicode _ _ Hin).
Defined.

Lemma heading_is_not_bullet_witness :
  @Convert.looks_like_heading basic_unicode (lit "Key Points:") = true ∧
  Convert.bullet_text (lit "Key Points:") = None.
Proof.
  assert (@Convert.looks_like_heading basic_unicode (lit "Key Points:") = true)
    as Hh by reflexivity.
  split; [exact Hh|].
  apply (@heading_is_not_bullet basic_unicode _ Hh).
Defined.

(** ** The clusters *)

Section Clusters.
Import Convert.








End Clusters.

(** ** Centres and levels *)

Section Centres.
Import Convert.










Lemma sorted_lookup_le (l : list Qc) (j i : nat) (a b : Qc) :
  StronglySorted Qcle l → l !! j = Some a → l !! i = Some b → j ≤ i →
  (a ≤ b)%Qc.
Proof.
  intros Hs Hj Hi Hji. destruct (decide (j = i)) as [-> | Hne].
  { assert (a = b) as -> by congruence. apply Qcle_refl. }
  rewrite <- (take_drop i l) in Hs.
  apply (StronglySorted_app_1_elem_of _ _ _ a b Hs).
  - apply list_elem_of_lookup. exists j. rewrite lookup_take_lt by lia. done.
  - apply list_elem_of_lookup. exists 0. by rewrite lookup_drop, Nat.add_0_r.
Qed.

Lemma abs_gap_Q (x y cj ci : Q) :
  (cj <= ci)%Q → (x <= y)%Q →
  (Qabs (x - ci) < Qabs (x - cj))%Q →
  (Qabs (y - cj) <= Qabs (y - ci))%Q → False.
Proof.
  intros H1 H2.
  apply (Qabs_case (x - ci)); apply (Qabs_case (x - cj));
    apply (Qabs_case (y - cj)); apply (Qabs_case (y - ci)); intros; lra.
Qed.

Lemma abs_gap (x y cj ci : Qc) :
  (cj ≤ ci)%Qc → (x ≤ y)%Qc →
  (Qcabs (x - ci) < Qcabs (x - cj))%Qc →
  (Qcabs (y - cj) ≤ Qcabs (y - ci))%Qc → False.
Proof.
  unfold Qcle, Qclt. simpl. unfold Qcminus, Qcplus, Qcopp. simpl.
  rewrite !Qred_correct. apply abs_gap_Q.
Qed.



Lemma nearest_first_least (centers : list Qc) (x : Qc) :
  centers ≠ [] →
  ∃ ck, centers !! nearest_center centers x = Some ck ∧
    (∀ j cj, centers !! j = Some cj → (Qcabs (x - ck) ≤ Qcabs (x - cj))%Qc) ∧
    (∀ j cj, centers !! j = Some cj → j < nearest_center centers x →
             (Qcabs (x - ck) < Qcabs (x - cj))%Qc).
Proof.
  intros Hne.
  destruct (min_index_first_least ((λ c, Qcabs (x - c)) <$> centers))
    as (v & Hv & Hle & Hlt).
  { intros Hnil. by apply fmap_nil_inv in Hnil. }
  change (min_index _) with (nearest_center centers x) in Hv, Hlt.
  rewrite list_lookup_fmap in Hv.
  destruct (centers !! nearest_center centers x) as [ck|]; [|done].
  simpl in Hv. injection Hv as <-. exists ck. split; [done|]. split.
  - intros j cj Hj. apply (Hle j). by rewrite list_lookup_fmap, Hj.
  - intros j cj Hj Hlt'. apply (Hlt j); [|done].
    by rewrite list_lookup_fmap, Hj.
Qed.

Lemma nearest_center_mono (centers : list Qc) (x y : Qc) :
  StronglySorted Qcle centers → centers ≠ [] → (x ≤ y)%Qc →
  nearest_center centers x ≤ nearest_center centers y.
Proof.
  intros Hs Hne Hxy.
  destruct (nearest_first_least centers x Hne) as (ci & Hi & _ & Hlt).
  destruct (nearest_first_least centers y Hne) as (cj & Hj & Hle & _).
  destruct (le_lt_dec (nearest_center centers x) (nearest_center centers y))
    as [Hok | Hbad]; [done|].
  exfalso. apply (abs_gap x y cj ci).
  - apply (sorted_lookup_le centers _ _ cj ci Hs Hj Hi). lia.
  - done.
  - by apply (Hlt _ cj Hj).
  - by apply (Hle _ ci Hi).
Qed.

Lemma centers_strongly_sorted (xs : list Qc) (tol : Qc) :
  StronglySorted Qcle (_cluster_x_positions xs tol).
Proof.
  unfold _cluster_x_positions. destruct xs; [constructor|].
  apply Sorted_StronglySorted; [apply _|]. apply Sorted_merge_sort; apply _.
Qed.



(** X8. Levels never go down from left to right: of two bullets on a
    page, the one with the larger offset gets a level at least as deep. *)
Theorem levels_are_monotone (xs : list Qc) (i j : nat) (x y : Qc) :
  xs !! i = Some x → xs !! j = Some y → (x ≤ y)%Qc →
  ∃ lx ly, _levels_for_bullets_on_page xs !! i = Some lx ∧
           _levels_for_bullets_on_page xs !! j = Some ly ∧
           (lx ≤ ly)%Z.
Proof.
  intros Hi Hj Hxy.
  rewrite (levels_lookup xs i x Hi), (levels_lookup xs j y Hj).
  eexists _, _. split; [done|]. split; [done|].
  assert (nearest_center (_cluster_x_positions xs (Q2Qc 4)) x
          ≤ nearest_center (_cluster_x_positions xs (Q2Qc 4)) y) as Hm.
  { apply nearest_center_mono; [apply centers_strongly_sorted | | done].
    apply centers_nonempty. by intros ->. }
  lia.
Qed.

End Centres.

Lemma levels_are_monotone_witness :
  [Q2Qc 90; Q2Qc 50; Q2Qc 72] !! 1 = Some (Q2Qc 50) ∧
  [Q2Qc 90; Q2Qc 50; Q2Qc 72] !! 2 = Some (Q2Qc 72) ∧
  (Q2Qc 50 ≤ Q2Qc 72)%Qc ∧
  ∃ lx ly,
    Convert._levels_for_bullets_on_page [Q2Qc 90; Q2Qc 50; Q2Qc 72] !! 1
      = Some lx ∧
    Convert._levels_for_bullets_on_page [Q2Qc 90; Q2Qc 50; Q2Qc 72] !! 2
      = Some ly ∧
    (lx ≤ ly)%Z.
Proof.
  assert (Q2Qc 50 ≤ Q2Qc 72)%Qc as Hle by (by vm_compute).
  split; [reflexivity|]. split; [reflexivity|]. split; [exact Hle|].
  apply (levels_are_monotone [Q2Qc 90; Q2Qc 50; Q2Qc 72] 1 2
           (Q2Qc 50) (Q2Qc 72) eq_refl eq_refl Hle).
Defined.

(** ** Pages one after the other *)

Section Pages.
Import Convert.
Context `{UnicodeData}.

Lemma add_bullet_app (d d' : list Paragraph) (t : str) (lvl : Z) :
  add_bullet (d ++ d') t lvl = d ++ add_bullet d' t lvl.
Proof. unfold add_bullet. by rewrite app_assoc. Qed.

Lemma add_bold_line_app (d d' : list Paragraph) (t : str) :
  add_bold_line (d ++ d') t = d ++ add_bold_line d' t.
Proof. unfold add_bold_line. by rewrite app_assoc. Qed.

Lemma flush_bullet_onto (d : list Paragraph) (st : PageState) :
  flush_bullet (onto d st) = onto d (flush_bullet st).
Proof.
  unfold flush_bullet, onto. simpl.
  destruct (truthy (current_bullet st)); [|done].
  simpl. by rewrite add_bullet_app.
Qed.

Lemma line_step_onto (d : list Paragraph) title levels force st (ln : str) :
  line_step title levels force (onto d st) ln
  = onto d (line_step title levels force st ln).
Proof.
  unfold line_step. destruct (truthy title && _); [done|].
  rewrite flush_bullet_onto.
  destruct (bullet_text ln).
  { simpl. by destruct (levels !! _). }
  destruct (looks_like_heading ln).
  { unfold onto. simpl. by rewrite add_bold_line_app. }
  destruct force; [done|].
  simpl. by destruct (truthy (current_bullet st)).
Qed.

Lemma page_loop_onto (d d' : list Paragraph) title levels force
    (lines : list str) :
  page_loop title levels force (d ++ d') lines
  = onto d (page_loop title levels force d' lines).
Proof.
  unfold page_loop.
  change (mkPageState (d ++ d') None 0 0) with (onto d (mkPageState d' None 0 0)).
  generalize (mkPageState d' None 0 0). intros st. revert st.
  induction lines as [|ln lines IH]; intros st; [done|]. simpl.
  by rewrite line_step_onto, IH.
Qed.

Lemma convert_page_app (force : bool) (d : list Paragraph) (page : Page) :
  convert_page force d page = d ++ convert_page force [] page.
Proof.
  unfold convert_page.
  destruct (normalize_lines (page_text page)) as [|l0 ls];
    [by rewrite app_nil_r|].
  set (lines := l0 :: ls). set (title := find_title lines).
  destruct (truthy title && is_skipped_title (default [] title));
    [by rewrite app_nil_r|].
  assert ((if truthy title then add_bold_line d (default [] title) else d)
          = d ++ (if truthy title then add_bold_line [] (default [] title)
                  else [])) as ->.
  { destruct (truthy title); [|by rewrite app_nil_r].
    by rewrite <- add_bold_line_app, app_nil_r. }
  rewrite page_loop_onto, flush_bullet_onto. simpl. by rewrite app_assoc.
Qed.

(** X9. Pages do not touch each other's output: a page only appends to
    the document, what it appends does not depend on the document so far,
    and the document assembled from a list of pages is the pages' outputs
    in page order. *)
Theorem pages_are_independent (force : bool) (pages : list Page)
    (d : list Paragraph) :
  (∀ page, convert_page force d page = d ++ convert_page force [] page) ∧
  foldl (convert_page force) d pages
  = d ++ concat (convert_page force [] <$> pages).
Proof.
  split; [intros page; apply convert_page_app|].
  revert d. induction pages as [|page pages IH]; intros d; simpl.
  { by rewrite app_nil_r. }
  by rewrite IH, convert_page_app, <- app_assoc.
Qed.

Lemma bold_line_is_plain (t : str) :
  Forall level_0_bullet_or_plain (add_bold_line [] t).
Proof. apply Forall_singleton. by intros Hb. Qed.

Lemma flush_bullet_level_0 (st : PageState) :
  current_level st = 0%Z →
  Forall level_0_bullet_or_plain (doc st) →
  Forall level_0_bullet_or_plain (doc (flush_bullet st)) ∧
  current_level (flush_bullet st) = 0%Z.
Proof.
  intros Hl Hd. unfold flush_bullet.
  destruct (truthy (current_bullet st)); [|done]. simpl. split; [|done].
  rewrite Hl. unfold add_bullet. apply Forall_app. split; [done|].
  apply Forall_singleton. by intros _.
Qed.

Lemma line_step_level_0 title force st (ln : str) :
  current_level st = 0%Z →
  Forall level_0_bullet_or_plain (doc st) →
  current_level (line_step title [] force st ln) = 0%Z ∧
  Forall level_0_bullet_or_plain (doc (line_step title [] force st ln)).
Proof.
  intros Hl Hd. unfold line_step. destruct (truthy title && _); [done|].
  destruct (flush_bullet_level_0 st Hl Hd) as [Hfd Hfl].
  destruct (bullet_text ln); [done|].
  destruct (looks_like_heading ln).
  { simpl. split; [done|]. unfold add_bold_line.
    apply Forall_app. split; [done|]. apply Forall_singleton. by intros Hb. }
  destruct force; [done|].
  by destruct (truthy (current_bullet st)).
Qed.

(** X10. A page without bullet geometry puts every bullet at level 0:
    each list paragraph it writes has the style "List Bullet". *)
Theorem no_geometry_means_level_0 (force : bool) (page : Page) :
  page_bullet_xs page = [] →
  Forall level_0_bullet_or_plain (convert_page force [] page).
Proof.
  intros Hxs. unfold convert_page. rewrite Hxs. simpl.
  destruct (normalize_lines (page_text page)) as [|l0 ls]; [done|].
  set (lines := l0 :: ls). set (title := find_title lines).
  destruct (truthy title && is_skipped_title (default [] title)); [done|].
  set (d1 := if truthy title then add_bold_line [] (default [] title) else []).
  assert (Forall level_0_bullet_or_plain d1) as Hd1.
  { unfold d1. destruct (truthy title); [apply bold_line_is_plain | done]. }
  assert (∀ st, current_level st = 0%Z →
                Forall level_0_bullet_or_plain (doc st) →
                let st' := foldl (line_step title [] force) st lines in
                current_level st' = 0%Z ∧
                Forall level_0_bullet_or_plain (doc st')) as Hloop.
  { generalize lines. intros ls'.
    induction ls' as [|ln ls' IH]; intros st Hl Hd; simpl; [done|].
    destruct (line_step_level_0 title force st ln Hl Hd) as [Hl' Hd'].
    by apply IH. }
  destruct (Hloop (mkPageState d1 None 0 0) eq_refl Hd1) as [Hl Hd].
  destruct (flush_bullet_level_0 _ Hl Hd) as [Hfd _].
  apply Forall_app. split; [done|]. apply Forall_singleton. by intros Hb.
Qed.

(** X11. The title of a page is its first line that is not a bullet line
    and is a heading or at most 60 characters long; a page has no title
    exactly when no line is of that kind. *)
Theorem find_title_first_candidate (lines : list str) :
  (∀ t, find_title lines = Some t ↔
        ∃ pre post, lines = pre ++ t :: post ∧ title_candidate t ∧
                    Forall (λ ln, ¬ title_candidate ln) pre) ∧
  (find_title lines = None ↔ Forall (λ ln, ¬ title_candidate ln) lines).
Proof.
  assert (∀ ln, title_candidate ln ↔
                bool_decide (is_Some (bullet_text ln)) = false ∧
                looks_like_heading ln || (length ln <=? 60) = true) as Hcand.
  { intros ln. unfold title_candidate.
    rewrite bool_decide_eq_false, orb_true_iff, Nat.leb_le.
    split; intros [Hb Hc]; (split; [|done]).
    - rewrite Hb. by intros [? ?].
    - destruct (bullet_text ln); [|done]. destruct Hb. by eexists. }
  induction lines as [|ln lines [IHs IHn]]; simpl.
  { split; [|done]. intros t. split; [done|].
    intros (pre & post & Hl & _). by destruct pre. }
  destruct (bool_decide (is_Some (bullet_text ln))) eqn:Hb.
  - assert (¬ title_candidate ln) as Hno.
    { rewrite Hcand. intros [? _]. congruence. }
    split.
    + intros t. rewrite IHs. split.
      * intros (pre & post & -> & Ht & Hpre). exists (ln :: pre), post.
        split; [done|]. split; [done|]. by constructor.
      * intros (pre & post & Hl & Ht & Hpre). destruct pre as [|a pre].
        { simpl in Hl. injection Hl as -> _. done. }
        simpl in Hl. injection Hl as -> ->. exists pre, post.
        split; [done|]. split; [done|]. by apply Forall_cons in Hpre as [_ ?].
    + rewrite IHn. split; [by constructor|].
      by intros [_ ?]%Forall_cons.
  - destruct (looks_like_heading ln || (length ln <=? 60)) eqn:Hc.
    + assert (title_candidate ln) as Hyes by (by apply Hcand).
      split.
      * intros t. split.
        -- intros [= <-]. by exists [], lines.
        -- intros (pre & post & Hl & Ht & Hpre). destruct pre as [|a pre].
           { simpl in Hl. by injection Hl as -> _. }
           simpl in Hl. injection Hl as -> _.
           by apply Forall_cons in Hpre as [? _].
      * split; [done|]. by intros [? _]%Forall_cons.
    + assert (¬ title_candidate ln) as Hno.
      { rewrite Hcand. intros [_ ?]. congruence. }
      split.
      * intros t. rewrite IHs. split.
        -- intros (pre & post & -> & Ht & Hpre). exists (ln :: pre), post.
           split; [done|]. split; [done|]. by constructor.
        -- intros (pre & post & Hl & Ht & Hpre). destruct pre as [|a pre].
           { simpl in Hl. injection Hl as -> _. done. }
           simpl in Hl. injection Hl as -> ->. exists pre, post.
           split; [done|]. split; [done|].
           by apply Forall_cons in Hpre as [_ ?].
      * rewrite IHn. split; [by constructor|].
        by intros [_ ?]%Forall_cons.
Qed.

End Pages.

(** The page "Intro / - First" comes without offsets, and its bullet is
    written at level 0. *)
Lemma no_geometry_means_level_0_witness :
  let page := Convert.mkPage (lit "Intro" ++ [10%N] ++ lit "- First") [] in
  Convert.page_bullet_xs page = [] ∧
  Forall Convert.level_0_bullet_or_plain
    (@Convert.convert_page basic_unicode false [] page).
Proof.
  intros page. split; [reflexivity|].
  apply (@no_geometry_means_level_0 basic_unicode false page). reflexivity.
Defined.

(** ** The postprocessor's output *)

Section Unified.
Import Convert.

Lemma apply_level_indent_clamped (p : Paragraph) (lvl : Z) :
  ∃ L, (0 ≤ L ≤ 2)%Z ∧
       left_indent (apply_level_indent p lvl)
       = Some (Pt (Q2Qc 18 + Q2Qc 18 * Qc_of_Z L)).
Proof.
  exists (Z.max 0 (Z.min lvl 2)). split; [lia|].
  assert (Z.max 0 (Z.min lvl 2) = 0 ∨ Z.max 0 (Z.min lvl 2) = 1
          ∨ Z.max 0 (Z.min lvl 2) = 2)%Z as Hc by lia.
  unfold apply_level_indent.
  destruct Hc as [-> | [-> | ->]]; reflexivity.
Qed.

Lemma aptos_12_fonts (rs : list Run) :
  Forall (λ r, font_name r = Some (lit "Aptos (Body)") ∧
               font_size r = Some (Pt (Q2Qc 12))) (aptos_12 <$> rs).
Proof. apply Forall_fmap, Forall_forall. by intros r _. Qed.

Lemma to_list_bullet_unified (p : Paragraph) (lvl : Z) :
  unified (to_list_bullet p lvl).
Proof.
  split; [by apply bullet_is_not_heading|]. split; [apply aptos_12_fonts|].
  intros _. split; [done|]. split; [done|].
  apply (apply_level_indent_clamped (set_style (lit "List Bullet") p) lvl).
Qed.

Lemma restyle_step_unified (b : bool) (p : Paragraph) :
  unified (restyle_step b p).2.
Proof.
  unfold restyle_step.
  destruct (is_heading p) eqn:Hh.
  { split; [by apply bullet_is_not_heading|]. split; [apply aptos_12_fonts|].
    intros _. split; [done|]. split; [done|]. by exists 0%Z. }
  destruct (b && is_bullet p); [apply to_list_bullet_unified|].
  destruct (is_bullet p) eqn:Hb; [apply to_list_bullet_unified|].
  simpl. split; [by rewrite is_heading_enforce|].
  split; [apply aptos_12_fonts|].
  intros Hb'. unfold is_bullet, style_name in *. simpl in Hb'. congruence.
Qed.

(** X12. Whatever stream goes in, every paragraph the postprocessor
    returns is no heading and is set in 12 point Aptos, and every list
    paragraph among them has the style "List Bullet", a hanging indent of
    18 points and a left indent of 18, 36 or 54 points, which the remapper
    reads back as its level. *)
Theorem postprocess_unifies (paras : list Paragraph) (p : Paragraph) :
  p ∈ postprocess_formatting paras →
  unified p ∧
  (is_bullet p = true →
   Reindent.is_list_like p = true ∧
   ∃ L, (0 ≤ L ≤ 2)%Z ∧
        left_indent p = Some (Pt (Q2Qc 18 + Q2Qc 18 * Qc_of_Z L)) ∧
        Reindent.infer_level_from_indent p = L).
Proof.
  unfold postprocess_formatting.
  generalize (remove_paragraphs (to_delete_idxs paras) paras), false.
  intros l b Hin.
  assert (unified p) as Hu.
  { revert b Hin. induction l as [|q l IH]; intros b Hin; simpl in Hin.
    { by apply elem_of_nil in Hin. }
    pose proof (restyle_step_unified b q) as Hq.
    destruct (restyle_step b q) as [b' q'].
    apply elem_of_cons in Hin as [-> | Hin]; [done | by apply (IH b')]. }
  split; [done|]. intros Hb.
  destruct Hu as (_ & _ & Hlist).
  destruct (Hlist Hb) as (_ & _ & L & HL & Hleft).
  split.
  { unfold Reindent.is_list_like. unfold is_bullet in Hb. by rewrite Hb. }
  exists L. split; [done|]. split; [done|].
  apply infer_level_of_encoding; [done|]. rewrite Hleft.
  assert (L = 0 ∨ L = 1 ∨ L = 2)%Z as [-> | [-> | ->]] by lia; reflexivity.
Qed.

Lemma heading_runs_bold (any : bool) (rs : list Run) :
  all_text_runs_bold any rs = true →
  Forall (λ r, nonblank (text r) = true → bold r = Some true) rs.
Proof.
  revert any. induction rs as [|r rs IH]; intros any; [done|]. simpl.
  destruct (nonblank (text r)) eqn:Hn.
  - case_bool_decide as Hb; [|done]. intros Hrs.
    constructor; [done | by apply (IH true)].
  - intros Hrs. constructor; [intros ?; congruence | by apply (IH any)].
Qed.

Lemma restyle_step_content (b : bool) (p : Paragraph) :
  run_content <$> runs (restyle_step b p).2 = run_content <$> runs p.
Proof.
  assert (∀ rs : list Run,
            run_content <$> (aptos_12 <$> rs) = run_content <$> rs) as Ha.
  { intros rs. rewrite <- list_fmap_compose. by apply list_fmap_ext. }
  unfold restyle_step. destruct (is_heading p) eqn:Hh.
  - simpl. rewrite Ha. rewrite <- list_fmap_compose.
    unfold is_heading in Hh.
    destruct (negb _); [done|]. destruct (is_bullet p); [done|].
    apply heading_runs_bold in Hh.
    apply Forall_fmap_ext_1. eapply Forall_impl; [exact Hh|].
    intros r Hr. simpl. unfold keep_bold.
    destruct (nonblank (text r)) eqn:Hn; [|done].
    unfold run_content. simpl. by rewrite (Hr Hn).
  - repeat match goal with |- context [if ?c then _ else _] => destruct c end;
      simpl; by rewrite ?Ha.
Qed.

(** X13. The postprocessor changes formatting only: in the paragraphs it
    keeps, the text, bold, italic and underline of every run are what they
    were. *)
Theorem postprocess_keeps_run_content (paras : list Paragraph) :
  (λ p, run_content <$> runs p) <$> postprocess_formatting paras
  = (λ p, run_content <$> runs p) <$> omit (to_delete_idxs paras) paras.
Proof.
  unfold postprocess_formatting. rewrite remove_paragraphs_omit.
  generalize (omit (to_delete_idxs paras) paras), false.
  intros l. induction l as [|q l IH]; intros b; [done|]. simpl.
  pose proof (restyle_step_content b q) as Hq.
  destruct (restyle_step b q) as [b' q']. simpl in *.
  by rewrite Hq, IH.
Qed.

End Unified.

(** The level-1 bullet under the heading "A" comes out as a "List Bullet"
    paragraph at level 2. *)
Lemma postprocess_unifies_witness :
  let paras := Convert.add_bullet (Convert.add_bold_line [] (lit "A"))
                 (lit "x") 1 in
  let p := nth 1 (Convert.postprocess_formatting paras)
             Convert.BlankSeparator in
  p ∈ Convert.postprocess_formatting paras ∧
  Convert.unified p ∧
  (Convert.is_bullet p = true →
   Reindent.is_list_like p = true ∧
   ∃ L, (0 ≤ L ≤ 2)%Z ∧
        left_indent p = Some (Pt (Q2Qc 18 + Q2Qc 18 * Qc_of_Z L)) ∧
        Reindent.infer_level_from_indent p = L).
Proof.
  intros paras p.
  assert (p ∈ Convert.postprocess_formatting paras) as Hin.
  { apply list_elem_of_lookup. exists 1%nat. reflexivity. }
  split; [exact Hin|]. apply (postprocess_unifies paras p Hin).
Defined.

(** ** Cleanup and level shift *)

Section Cleanup.
Import Convert.

Lemma remove_paragraphs_prune_from (pre paras : list Paragraph) :
  remove_paragraphs (to_delete_from (length pre) paras) (pre ++ paras)
  = pre ++ prune paras.
Proof.
  unfold remove_paragraphs. revert pre.
  induction paras as [|p below IH]; intros pre; [done|].
  specialize (IH (pre ++ [p])).
  rewrite length_app, Nat.add_1_r, <- app_assoc in IH. simpl in IH.
  simpl. destruct (is_heading p && negb (has_bullet below)).
  - rewrite reverse_cons, foldl_app, IH. simpl.
    rewrite <- app_assoc. simpl. by rewrite delete_middle.
  - by rewrite IH, <- app_assoc.
Qed.

Lemma has_bullet_prune (l : list Paragraph) :
  has_bullet (prune l) = has_bullet l.
Proof.
  induction l as [|p l IH]; [done|]. simpl.
  destruct (is_heading p) eqn:Hh; simpl.
  - destruct (has_bullet l) eqn:Hb; simpl; [by rewrite Hh|].
    by rewrite IH.
  - rewrite Hh. destruct (is_bullet p); [done | apply IH].
Qed.

Lemma to_delete_prune (l : list Paragraph) (i : nat) :
  to_delete_from i (prune l) = [].
Proof.
  revert i. induction l as [|p l IH]; intros i; [done|]. simpl.
  destruct (is_heading p && negb (has_bullet l)) eqn:Hd; [apply IH|].
  simpl. rewrite has_bullet_prune, Hd. apply IH.
Qed.

Lemma prune_keeps_others (l : list Paragraph) :
  filter (λ p, is_heading p = false) (prune l)
  = filter (λ p, is_heading p = false) l.
Proof.
  induction l as [|p l IH]; [done|]. simpl.
  destruct (is_heading p) eqn:Hh; simpl.
  - rewrite (filter_cons_False _ p l) by congruence.
    destruct (has_bullet l); simpl; [|done].
    by rewrite filter_cons_False by congruence.
  - by rewrite !filter_cons_True, IH by done.
Qed.

(** X14. One pass removes every orphan heading: in the cleaned stream the
    deletion list is empty, every heading has a bullet below it before the
    next heading, and the paragraphs that are not headings are all still
    there, in their order. *)
Theorem cleanup_is_final (paras : list Paragraph) :
  let cleaned := remove_paragraphs (to_delete_idxs paras) paras in
  to_delete_idxs cleaned = [] ∧
  (∀ i p, cleaned !! i = Some p → is_heading p = true →
          bullet_before_next_heading cleaned i) ∧
  filter (λ p, is_heading p = false) cleaned
  = filter (λ p, is_heading p = false) paras.
Proof.
  intros cleaned.
  assert (cleaned = prune paras) as Hc
    by apply (remove_paragraphs_prune_from [] paras).
  assert (to_delete_idxs cleaned = []) as Hd.
  { rewrite Hc. apply to_delete_prune. }
  split; [done|]. split; [|rewrite Hc; apply prune_keeps_others].
  intros i p Hi Hp. apply bullet_before_next_heading_iff.
  destruct (has_bullet (drop (S i) cleaned)) eqn:Hb; [done|].
  assert (i ∈ to_delete_idxs cleaned) as Hin.
  { apply to_delete_from_elem. by exists i, p. }
  rewrite Hd in Hin. by apply elem_of_nil in Hin.
Qed.

Lemma bullets_nothing_to_delete (bs : list Paragraph) (i : nat) :
  Forall (λ p, is_bullet p = true) bs → to_delete_from i bs = [].
Proof.
  intros Hbs. revert i. induction Hbs as [|p bs Hp _ IH]; intros i; [done|].
  simpl. rewrite (bullet_is_not_heading p Hp). simpl. apply IH.
Qed.

Lemma restyle_bullets (b : bool) (bs : list Paragraph) :
  Forall (λ p, is_bullet p = true) bs →
  restyle b bs
  = (λ p, to_list_bullet p
            (if b then Z.min (style_level p + 1) 2 else style_level p))
      <$> bs.
Proof.
  induction 1 as [|p bs Hp _ IH]; [done|]. simpl.
  unfold restyle_step. rewrite (bullet_is_not_heading p Hp), Hp.
  destruct b; simpl; [by rewrite IH|].
  destruct (negb (nonblank (paragraph_text p))); simpl; by rewrite IH.
Qed.

(** X15. Bullets directly under a heading go one level down, capped at
    2, and the heading becomes a bold level-0 bullet; the same bullets
    with no heading above them keep the level of their style. *)
Theorem bullets_under_heading_shift (h : Paragraph) (bs : list Paragraph) :
  Forall (λ p, is_bullet p = true) bs →
  postprocess_formatting bs
  = (λ p, to_list_bullet p (style_level p)) <$> bs ∧
  (is_heading h = true → bs ≠ [] →
   postprocess_formatting (h :: bs)
   = promote_heading h
     :: ((λ p, to_list_bullet p (Z.min (style_level p + 1) 2)) <$> bs)).
Proof.
  intros Hbs. split.
  - unfold postprocess_formatting, to_delete_idxs.
    rewrite (bullets_nothing_to_delete bs 0 Hbs).
    by apply (restyle_bullets false).
  - intros Hh Hne. unfold postprocess_formatting, to_delete_idxs.
    assert (has_bullet bs = true) as Hb.
    { destruct Hbs as [|p bs' Hp _]; [done|]. simpl.
      by rewrite (bullet_is_not_heading p Hp), Hp. }
    simpl. rewrite Hh, Hb. simpl.
    rewrite (bullets_nothing_to_delete bs 1 Hbs).
    unfold remove_paragraphs. simpl. unfold restyle_step. rewrite Hh.
    by rewrite (restyle_bullets true bs Hbs).
Qed.

End Cleanup.

Lemma bullets_under_heading_shift_witness :
  let bs := Convert.add_bullet (Convert.add_bullet [] (lit "x") 0)
              (lit "y") 2 in
  Forall (λ p, Convert.is_bullet p = true) bs ∧
  left_indent <$> Convert.postprocess_formatting bs
  = left_indent <$> ((λ p, Convert.to_list_bullet p (Convert.style_level p))
                       <$> bs).
Proof.
  intros bs.
  assert (Forall (λ p, Convert.is_bullet p = true) bs) as Hbs.
  { repeat constructor. }
  split; [exact Hbs|].
  by rewrite (proj1 (bullets_under_heading_shift (add_paragraph [] None)
                       bs Hbs)).
Defined.

Example heading_shift_indents :
  left_indent <$>
    Convert.postprocess_formatting
      (Convert.add_bullet
         (Convert.add_bullet (Convert.add_bold_line [] (lit "H")) (lit "x") 0)
         (lit "y") 2)
  = [Some (Pt (Q2Qc 18)); Some (Pt (Q2Qc 36)); Some (Pt (Q2Qc 54))].
Proof. reflexivity. Qed.

(** ** Rounding an indent to a level *)

Section Rounding.
Import Reindent.

(** Comparisons of canonical rationals as comparisons of fractions. *)
Ltac qc_to_q :=
  unfold Qcle, Qclt, half in *;
  unfold Qcdiv, Qcminus, Qcplus, Qcmult, Qcopp, Qcinv, Qc_of_Z in *;
  cbn [this Q2Qc] in *; rewrite ?Qred_correct in *.

Lemma py_round_window (q : Qc) :
  (Qfloor q ≤ py_round q ≤ Qfloor q + 1)%Z.
Proof.
  unfold py_round. repeat case_bool_decide; try destruct (Z.even _); lia.
Qed.

Lemma py_round_le_0 (q : Qc) : (q ≤ half)%Qc → (py_round q ≤ 0)%Z.
Proof.
  intros Hq. pose proof (py_round_window q) as Hw.
  pose proof (Qfloor_le q) as H1.
  assert (Qfloor q < 1)%Z as Hf.
  { rewrite Zlt_Qlt. qc_to_q. change (inject_Z 1) with 1%Q. lra. }
  destruct (decide (Qfloor q = 0)%Z) as [H0 | Hn]; [|lia].
  unfold py_round. rewrite H0.
  case_bool_decide as Ha; [done|]. case_bool_decide as Hb; [|done].
  exfalso. qc_to_q. change (inject_Z 0) with 0%Q in *. lra.
Qed.

Lemma py_round_ge_1 (q : Qc) : (half < q)%Qc → (1 ≤ py_round q)%Z.
Proof.
  intros Hq. pose proof (py_round_window q) as Hw.
  pose proof (Qlt_floor q) as H2.
  assert (-1 < Qfloor q)%Z as Hf.
  { rewrite Zlt_Qlt. qc_to_q. rewrite inject_Z_plus in H2.
    change (inject_Z 1) with 1%Q in *.
    change (inject_Z (-1)) with (-1 # 1)%Q. lra. }
  destruct (decide (Qfloor q = 0)%Z) as [H0 | Hn]; [|lia].
  unfold py_round. rewrite H0.
  case_bool_decide as Ha.
  { exfalso. qc_to_q. change (inject_Z 0) with 0%Q in *. lra. }
  case_bool_decide as Hb; [done|].
  exfalso. apply Hb. qc_to_q. change (inject_Z 0) with 0%Q in *. lra.
Qed.

Lemma py_round_le_1 (q : Qc) : (q < Q2Qc (3 # 2))%Qc → (py_round q ≤ 1)%Z.
Proof.
  intros Hq. pose proof (py_round_window q) as Hw.
  pose proof (Qfloor_le q) as H1.
  assert (Qfloor q < 2)%Z as Hf.
  { rewrite Zlt_Qlt. qc_to_q. change (inject_Z 2) with 2%Q. lra. }
  destruct (decide (Qfloor q = 1)%Z) as [H0 | Hn]; [|lia].
  unfold py_round. rewrite H0.
  case_bool_decide as Ha; [done|].
  exfalso. apply Ha. qc_to_q. change (inject_Z 1) with 1%Q in *. lra.
Qed.

Lemma py_round_ge_2 (q : Qc) : (Q2Qc (3 # 2) ≤ q)%Qc → (2 ≤ py_round q)%Z.
Proof.
  intros Hq. pose proof (py_round_window q) as Hw.
  pose proof (Qlt_floor q) as H2.
  assert (0 < Qfloor q)%Z as Hf.
  { rewrite Zlt_Qlt. qc_to_q. rewrite inject_Z_plus in H2.
    change (inject_Z 1) with 1%Q in *. change (inject_Z 0) with 0%Q. lra. }
  destruct (decide (Qfloor q = 1)%Z) as [H0 | Hn]; [|lia].
  unfold py_round. rewrite H0.
  case_bool_decide as Ha.
  { exfalso. qc_to_q. change (inject_Z 1) with 1%Q in *. lra. }
  by case_bool_decide.
Qed.

Lemma ratio_Q (X : Q) :
  (X == (228600 # 1) * ((X * / (12700 # 1) + - (18)) * / 18)
        + (228600 # 1))%Q.
Proof. field. Qed.

Lemma level_ratio (z : Z) :
  (inject_Z z
   == (228600 # 1) * this ((pt z - Q2Qc 18) / Q2Qc 18) + (228600 # 1))%Q.
Proof.
  unfold pt. qc_to_q. apply ratio_Q.
Qed.

(** X16. The level the remapper reads off a left indent: up to 27
    points it is 0, above 27 and below 45 points it is 1, from 45 points
    on it is 2, and with no left indent it is 0. The bounds are in EMU:
    342900 is 27 points and 571500 is 45 points. *)
Theorem infer_level_thresholds (p : Paragraph) :
  (left_indent p = None → infer_level_from_indent p = 0%Z) ∧
  ∀ z, left_indent p = Some z →
    ((z ≤ 342900)%Z → infer_level_from_indent p = 0%Z) ∧
    ((342900 < z < 571500)%Z → infer_level_from_indent p = 1%Z) ∧
    ((571500 ≤ z)%Z → infer_level_from_indent p = 2%Z).
Proof.
  unfold infer_level_from_indent. split; [by intros ->|].
  intros z ->. pose proof (level_ratio z) as Hr.
  set (q := ((pt z - Q2Qc 18) / Q2Qc 18)%Qc) in *.
  split; [|split].
  - intros Hz. rewrite Zle_Qle in Hz.
    assert (py_round q ≤ 0)%Z; [|lia].
    apply py_round_le_0. unfold Qcle, half. cbn [this Q2Qc].
    rewrite Qred_correct. change (inject_Z 342900) with (342900 # 1)%Q in Hz.
    lra.
  - intros [Hlo Hhi]. rewrite Zlt_Qlt in Hlo, Hhi.
    change (inject_Z 342900) with (342900 # 1)%Q in Hlo.
    change (inject_Z 571500) with (571500 # 1)%Q in Hhi.
    assert (1 ≤ py_round q)%Z.
    { apply py_round_ge_1. unfold Qclt, half. cbn [this Q2Qc].
      rewrite Qred_correct. lra. }
    assert (py_round q ≤ 1)%Z; [|lia].
    apply py_round_le_1. unfold Qclt. cbn [this Q2Qc].
    rewrite Qred_correct. lra.
  - intros Hz. rewrite Zle_Qle in Hz.
    change (inject_Z 571500) with (571500 # 1)%Q in Hz.
    assert (2 ≤ py_round q)%Z; [|lia].
    apply py_round_ge_2. unfold Qcle. cbn [this Q2Qc].
    rewrite Qred_correct. lra.
Qed.

End Rounding.

(** ** What the remapper keeps and what it resets *)

Section RemapContent.
Import Reindent.

Lemma concat_nonempty_texts (rs : list Run) :
  concat (text <$> List.filter (λ r0, negb (bool_decide (text r0 = []))) rs)
  = concat (text <$> rs).
Proof.
  induction rs as [|r rs IH]; [done|]. cbn [List.filter].
  case_bool_decide as Ht; cbn [negb]; rewrite !fmap_cons; cbn [concat].
  - by rewrite IH, Ht.
  - by rewrite IH.
Qed.

Lemma copy_runs_links (sp dp : Paragraph) :
  hyperlinks (copy_runs_force_not_bold sp dp) = hyperlinks dp.
Proof.
  unfold copy_runs_force_not_bold.
  destruct (runs sp); [destruct (paragraph_text sp)|]; done.
Qed.

Lemma copied_runs (sp dp : Paragraph) :
  runs dp = [] →
  runs (copy_runs_force_not_bold sp dp)
  = match runs sp with
    | [] =>
        match paragraph_text sp with
        | [] => []
        | t => [plain_copy t None None]
        end
    | rs =>
        (λ r0, plain_copy (text r0) (italic r0) (underline r0))
          <$> List.filter (λ r0, negb (bool_decide (text r0 = []))) rs
    end.
Proof.
  intros Hdp. unfold copy_runs_force_not_bold.
  destruct (runs sp); [destruct (paragraph_text sp)|]; simpl;
    by rewrite ?Hdp.
Qed.

Lemma copy_runs_text (sp dp : Paragraph) :
  runs dp = [] → hyperlinks dp = [] →
  paragraph_text (copy_runs_force_not_bold sp dp) = copied_text sp.
Proof.
  intros Hr Hl.
  rewrite paragraph_text_no_links by (by rewrite copy_runs_links).
  rewrite (copied_runs sp dp Hr). unfold copied_text.
  destruct (runs sp) as [|r rs].
  - destruct (paragraph_text sp); [done|]. simpl. by rewrite app_nil_r.
  - rewrite <- list_fmap_compose. apply (concat_nonempty_texts (r :: rs)).
Qed.

Lemma font_and_bold_off_text (p : Paragraph) :
  paragraph_text (font_and_bold_off p) = paragraph_text p.
Proof.
  unfold paragraph_text, font_and_bold_off. simpl. apply text_from_ext.
  by rewrite <- list_fmap_compose.
Qed.

Lemma remap_paragraph_text (template_styles : list str) (sp : Paragraph) :
  paragraph_text (remap_paragraph template_styles sp) = copied_text sp.
Proof.
  unfold remap_paragraph.
  destruct (is_list_like sp); rewrite font_and_bold_off_text;
    apply copy_runs_text; try done.
  all: by destruct (bool_decide _).
Qed.

Lemma copied_text_no_links (sp : Paragraph) :
  hyperlinks sp = [] → copied_text sp = paragraph_text sp.
Proof.
  intros Hl. unfold copied_text. rewrite (paragraph_text_no_links sp Hl).
  by destruct (runs sp).
Qed.

(** X17. The remapper writes one paragraph for each source paragraph
    whose text is not blank, in order, and the text it gives it is that of
    the source's runs, or the source's whole text when the source has no
    run. So the text of a hyperlink beside runs is lost. A source without
    hyperlinks keeps all its text, and no output paragraph is blank
    then. *)
Theorem remap_copies_run_text (src : list Paragraph)
    (template_styles : list str) :
  paragraph_text <$> apply_template_bullets src template_styles
  = copied_text
      <$> filter (λ sp, nonblank (paragraph_text sp) = true) src ∧
  (Forall (λ sp, hyperlinks sp = []) src →
   paragraph_text <$> apply_template_bullets src template_styles
   = paragraph_text
       <$> filter (λ sp, nonblank (paragraph_text sp) = true) src ∧
   Forall (λ dp, nonblank (paragraph_text dp) = true)
     (apply_template_bullets src template_styles)).
Proof.
  assert (paragraph_text <$> apply_template_bullets src template_styles
          = copied_text
              <$> filter (λ sp, nonblank (paragraph_text sp) = true) src)
    as Hall.
  { unfold apply_template_bullets. rewrite remap_loop. simpl.
    rewrite <- list_fmap_compose. apply list_fmap_ext.
    intros _ sp _. apply remap_paragraph_text. }
  split; [exact Hall|]. intros Hno.
  assert (Forall (λ sp, copied_text sp = paragraph_text sp)
            (filter (λ sp, nonblank (paragraph_text sp) = true) src)) as Hsame.
  { apply Forall_forall. intros sp Hsp.
    apply list_elem_of_filter in Hsp as [_ Hsp].
    apply copied_text_no_links.
    by apply (proj1 (Forall_forall _ _) Hno). }
  split.
  - rewrite Hall. by apply Forall_fmap_ext_1.
  - unfold apply_template_bullets. rewrite remap_loop. simpl.
    apply Forall_fmap, Forall_forall. intros sp Hsp. simpl.
    rewrite remap_paragraph_text.
    rewrite (proj1 (Forall_forall _ _) Hsame sp Hsp).
    by apply list_elem_of_filter in Hsp as [Hn _].
Qed.

(** A run "see " followed by the hyperlink "here": the copy keeps the
    run and loses the link. *)
Example remap_drops_link_text :
  let sp := mkParagraph None [new_run (lit "see ")]
              [mkHyperlink 1 (lit "here")]
              None None None None None None None in
  paragraph_text sp = lit "see here" ∧
  paragraph_text <$> apply_template_bullets [sp] [] = [lit "see "].
Proof. split; reflexivity. Qed.

(** A blank run beside a hyperlink gives a blank output paragraph. *)
Example remap_blank_beside_link :
  let sp := mkParagraph None [new_run (lit " ")]
              [mkHyperlink 1 (lit "here")]
              None None None None None None None in
  (nonblank ∘ paragraph_text) <$> apply_template_bullets [sp] [] = [false].
Proof. reflexivity. Qed.

Lemma remap_paragraph_runs (template_styles : list str) (sp : Paragraph) :
  runs (remap_paragraph template_styles sp)
  = match runs sp with
    | [] =>
        match paragraph_text sp with
        | [] => []
        | t => [plain_copy t None None]
        end
    | rs =>
        (λ r0, plain_copy (text r0) (italic r0) (underline r0))
          <$> List.filter (λ r0, negb (bool_decide (text r0 = []))) rs
    end.
Proof.
  assert (∀ dp, runs dp = [] →
            runs (font_and_bold_off (copy_runs_force_not_bold sp dp))
            = runs (copy_runs_force_not_bold sp dp)) as Hgen.
  { intros dp Hdp. unfold font_and_bold_off. simpl.
    rewrite (copied_runs sp dp Hdp).
    destruct (runs sp) as [|r rs]; [by destruct (paragraph_text sp)|].
    rewrite <- list_fmap_compose. by apply list_fmap_ext. }
  unfold remap_paragraph.
  destruct (is_list_like sp); rewrite Hgen; try apply copied_runs; try done.
  all: by destruct (bool_decide _).
Qed.

(** X18. The runs of an output paragraph: when the source has runs, they
    are copies of its runs with text, with the same text, italic and
    underline, and the runs without text are left out; when the source
    has no run, its text, if any, is written as one run with italic and
    underline unset. Every output run has bold switched off, the font
    12 point Aptos and some text, and the output has no hyperlink. *)
Theorem remap_resets_runs (template_styles : list str) (sp : Paragraph) :
  let dp := remap_paragraph template_styles sp in
  (runs sp ≠ [] →
   (λ r, (text r, italic r, underline r)) <$> runs dp
   = (λ r, (text r, italic r, underline r))
       <$> List.filter (λ r0, negb (bool_decide (text r0 = []))) (runs sp)) ∧
  (runs sp = [] →
   (λ r, (text r, italic r, underline r)) <$> runs dp
   = match paragraph_text sp with
     | [] => []
     | t => [(t, None, None)]
     end) ∧
  Forall (λ r, bold r = Some false ∧
               font_name r = Some (lit "Aptos (Body)") ∧
               font_size r = Some (Pt (Q2Qc 12)) ∧
               text r ≠ [])
    (runs dp) ∧
  hyperlinks dp = [].
Proof.
  intros dp. subst dp. rewrite remap_paragraph_runs.
  split; [|split; [|split]].
  - intros Hne. destruct (runs sp) as [|r rs]; [done|].
    rewrite <- list_fmap_compose. by apply list_fmap_ext.
  - intros ->. by destruct (paragraph_text sp).
  - destruct (runs sp) as [|r rs].
    + destruct (paragraph_text sp) as [|c t]; [done|].
      apply Forall_singleton. by repeat split.
    + apply Forall_fmap, Forall_forall. intros r' Hr. simpl.
      apply list_elem_of_In, filter_In in Hr as [_ Hr].
      apply negb_true_iff, bool_decide_eq_false in Hr. done.
  - unfold remap_paragraph, font_and_bold_off.
    destruct (is_list_like sp); simpl; rewrite copy_runs_links; try done.
    by destruct (bool_decide _).
Qed.

(** A paragraph that is one hyperlink has text and no run: its text is
    written as one run. *)
Example remap_link_only :
  let sp := mkParagraph None [] [mkHyperlink 0 (lit "here")]
              None None None None None None None in
  (λ dp, (λ r, (text r, italic r, underline r)) <$> runs dp)
    <$> apply_template_bullets [sp] []
  = [[(lit "here", None, None)]].
Proof. reflexivity. Qed.

(** X19. An output paragraph has no direct formatting; its numbering,
    if it has one, is the template's definition 1 at a level from 0 to 2;
    and a source paragraph that is not list-like gets no numbering and no
    style. *)
Theorem remap_numbering_is_the_templates (template_styles : list str)
    (sp : Paragraph) :
  let dp := remap_paragraph template_styles sp in
  (left_indent dp = None ∧ first_line_indent dp = None ∧
   right_indent dp = None ∧ space_before dp = None ∧
   space_after dp = None ∧ line_spacing dp = None) ∧
  (∀ l n, numPr dp = Some (l, n) →
          n = TEMPLATE_NUM_ID ∧ (0 ≤ l ≤ 2)%Z ∧ is_list_like sp = true) ∧
  (is_list_like sp = false → numPr dp = None ∧ pStyle dp = None).
Proof.
  intros dp. subst dp. unfold remap_paragraph.
  pose proof (infer_level_range sp) as Hr.
  assert (∀ q, let c := copy_runs_force_not_bold sp q in
               left_indent c = left_indent q ∧
               first_line_indent c = first_line_indent q ∧
               right_indent c = right_indent q ∧
               space_before c = space_before q ∧
               space_after c = space_after q ∧
               line_spacing c = line_spacing q ∧
               numPr c = numPr q ∧ pStyle c = pStyle q) as Hcopy.
  { intros q. unfold copy_runs_force_not_bold.
    destruct (runs sp); [destruct (paragraph_text sp)|]; done. }
  destruct (is_list_like sp).
  - unfold font_and_bold_off. cbn [left_indent first_line_indent right_indent
      space_before space_after line_spacing numPr pStyle set_runs].
    match goal with |- context [copy_runs_force_not_bold sp ?q] =>
      destruct (Hcopy q) as (-> & -> & -> & -> & -> & -> & -> & ->) end.
    split; [done|]. split; [|done].
    simpl. intros l n [= <- <-]. split; [done|]. split; [lia | done].
  - unfold font_and_bold_off. cbn [left_indent first_line_indent right_indent
      space_before space_after line_spacing numPr pStyle set_runs].
    match goal with |- context [copy_runs_force_not_bold sp ?q] =>
      destruct (Hcopy q) as (-> & -> & -> & -> & -> & -> & -> & ->) end.
    by repeat split.
Qed.

End RemapContent.

(** * Where the bullet offsets come from

    [_extract_bullet_x_positions] reads the offsets off the page dict. A
    line counts when its joined text starts with a glyph; the offset is
    then looked for span by span, with the line's own box as a fallback.
    The fallback is never taken: the glyph that makes the line count sits
    in the first span that holds ink at all. *)

Section Glyphs.

Import PyStr Convert.

Lemma lstrip_app_ink (s t : str) (c : char) (r : str) :
  lstrip s = c :: r → lstrip (s ++ t) = c :: r ++ t.
Proof.
  intros Hs. destruct (lstrip_decomp s) as (pre & Hpre & Hink).
  rewrite Hpre at 1. rewrite <- app_assoc, lstrip_app_ws by done.
  rewrite Hs. simpl. by rewrite (lstrip_head _ _ _ Hs).
Qed.

Lemma find_bullet_x_glyph (spans : list Span) (c : char) (r : str) :
  lstrip (concat (span_text <$> spans)) = c :: r →
  is_bullet_char c = true →
  ∃ s, find_bullet_x spans = Some (bbox_x0 (span_bbox s))
       ∧ glyph_span spans s.
Proof.
  induction spans as [|s rest IH]; [done|].
  intros Hl Hc. rewrite fmap_cons in Hl. simpl in Hl.
  destruct (has_ink (span_text s)) eqn:Hink.
  - destruct (lstrip (span_text s)) as [|c' r'] eqn:Hs.
    { apply lstrip_nil in Hs. congruence. }
    rewrite (lstrip_app_ink _ _ _ _ Hs) in Hl. injection Hl as -> _.
    exists s. split.
    + simpl. destruct (span_text s) as [|a st] eqn:Hst; [done|].
      rewrite nonblank_has_ink, Hink. simpl negb. cbv iota.
      rewrite Hs. by rewrite Hc.
    + exists [], rest, c, r'. by repeat split.
  - rewrite lstrip_app_ws in Hl by done.
    destruct (IH Hl Hc) as (s' & Hf & pre & post & c' & r' & -> & Hpre & Hs' & Hc').
    exists s'. split.
    + simpl. destruct (span_text s) as [|a st] eqn:Hst; [done|].
      by rewrite nonblank_has_ink, Hink.
    + exists (s :: pre), post, c', r'. repeat split; try done.
      by constructor.
Qed.

Lemma bullet_start_text_glyph (t : str) :
  _is_bullet_start_text t = true ↔
  ∃ c r, lstrip t = c :: r ∧ is_bullet_char c = true.
Proof.
  unfold _is_bullet_start_text. split.
  - destruct t as [|a t]; [done|].
    destruct (lstrip (a :: t)) as [|c r]; [done|]. by exists c, r.
  - intros (c & r & Hl & Hc). destruct t as [|a t]; [done|].
    by rewrite Hl.
Qed.

Lemma line_hit_glyph (line : Line) (h : Qc * Qc * Qc) :
  line_hit line = Some h →
  ∃ s, glyph_span (line_spans line) s
       ∧ h.2 = bbox_x0 (span_bbox s).
Proof.
  unfold line_hit. destruct (line_spans line) as [|s0 rest] eqn:Hsp; [done|].
  destruct (_is_bullet_start_text _) eqn:Hb; [|done]. simpl negb. cbv iota.
  apply bullet_start_text_glyph in Hb as (c & r & Hl & Hc).
  destruct (find_bullet_x_glyph _ _ _ Hl Hc) as (s & -> & Hg).
  intros [= <-]. by exists s.
Qed.

Lemma line_hit_is_Some (line : Line) :
  is_Some (line_hit line) ↔ bullet_start_line line.
Proof.
  unfold line_hit, bullet_start_line.
  destruct (line_spans line) as [|s0 rest] eqn:Hsp.
  { split; [by intros [? ?] | by intros [? _]]. }
  destruct (_is_bullet_start_text _) eqn:Hb; simpl negb; cbv iota.
  - split; [done|]. intros _.
    apply bullet_start_text_glyph in Hb as (c & r & Hl & Hc).
    by destruct (find_bullet_x_glyph _ _ _ Hl Hc) as (s & -> & _).
  - split; [by intros [? ?] | by intros [_ ?]].
Qed.

(** X20. A line of a text block yields an offset exactly when it has
    spans whose joined text starts, after white space, with a bullet
    glyph; the offset is then the left edge of the first span that holds
    ink, which is the span holding the glyph. The line's own box is never
    used for the offset. *)
Theorem bullet_x_is_the_glyph_span (line : Line) :
  (is_Some (line_hit line) ↔ bullet_start_line line)
  ∧ (∀ h, line_hit line = Some h →
       ∃ s, glyph_span (line_spans line) s
            ∧ h.2 = bbox_x0 (span_bbox s)).
Proof.
  split; [apply line_hit_is_Some | apply line_hit_glyph].
Qed.

Lemma key_lt_le (a b : Qc * Qc * Qc) : key_lt a b = true → key_le a b.
Proof.
  unfold key_lt, key_le. rewrite orb_true_iff, andb_true_iff.
  rewrite !bool_decide_eq_true. intros [H | [H1 H2]]; [by left|].
  right. split; [done|]. by apply Qclt_le_weak.
Qed.

Lemma key_not_lt_le (a b : Qc * Qc * Qc) : key_lt a b = false → key_le b a.
Proof.
  unfold key_lt, key_le. rewrite orb_false_iff, andb_false_iff.
  rewrite !bool_decide_eq_false. intros [H1 H2].
  destruct (Qc_dec (b.1.1) (a.1.1)) as [[Hlt | Hgt] | Heq].
  - by left.
  - done.
  - right. split; [done|]. destruct H2 as [H2 | H2]; [congruence|].
    by apply Qcnot_lt_le.
Qed.

Lemma insert_hit_perm (h : Qc * Qc * Qc) (l : list (Qc * Qc * Qc)) :
  insert_hit h l ≡ₚ h :: l.
Proof.
  induction l as [|h' l IH]; [done|]. simpl.
  destruct (key_lt h' h); [|done].
  rewrite IH. apply Permutation_swap.
Qed.

Lemma insert_hit_hd (a h : Qc * Qc * Qc) (l : list (Qc * Qc * Qc)) :
  key_le a h → HdRel key_le a l → HdRel key_le a (insert_hit h l).
Proof.
  intros Hah Hl. destruct l as [|h' l]; simpl; [by constructor|].
  destruct (key_lt h' h); constructor; [|done].
  by inversion Hl.
Qed.

Lemma insert_hit_sorted (h : Qc * Qc * Qc) (l : list (Qc * Qc * Qc)) :
  Sorted key_le l → Sorted key_le (insert_hit h l).
Proof.
  induction l as [|h' l IH]; intros Hs; simpl.
  { by repeat constructor. }
  inversion Hs as [|? ? Hs' Hhd]; subst.
  destruct (key_lt h' h) eqn:Hlt.
  - constructor; [by apply IH|].
    apply insert_hit_hd; [by apply key_lt_le | done].
  - constructor; [done|]. constructor. by apply key_not_lt_le.
Qed.

Lemma sort_hits_perm (l : list (Qc * Qc * Qc)) : sort_hits l ≡ₚ l.
Proof.
  induction l as [|h l IH]; [done|]. simpl.
  by rewrite insert_hit_perm, IH.
Qed.

Lemma sort_hits_sorted (l : list (Qc * Qc * Qc)) : Sorted key_le (sort_hits l).
Proof.
  induction l as [|h l IH]; simpl; [constructor|].
  by apply insert_hit_sorted.
Qed.

Lemma page_hits_text_lines (blocks : list Block) :
  page_hits blocks = omap line_hit (text_lines blocks).
Proof.
  unfold page_hits, text_lines.
  induction blocks as [|b blocks IH]; [done|].
  rewrite !bind_cons, omap_app, IH. f_equal.
  by destruct (bool_decide _).
Qed.

Lemma omap_none {A B} (f : A → option B) (l : list A) :
  Forall (λ x, f x = None) l → omap f l = [].
Proof.
  induction 1 as [|x l Hx _ IH]; [done|]. simpl. by rewrite Hx.
Qed.

(** X21. The offsets of a page are those of the bullet lines of its text
    blocks, one per line, arranged top to bottom and then left to right by
    the corner of the line's box; blocks of another type contribute
    nothing, and a page without a bullet line has no offsets. *)
Theorem offsets_in_reading_order (blocks : list Block) :
  (∃ hits,
     _extract_bullet_x_positions blocks = (λ h, h.2) <$> hits
     ∧ hits ≡ₚ omap line_hit (text_lines blocks)
     ∧ Sorted key_le hits)
  ∧ (Forall (λ line, ¬ bullet_start_line line) (text_lines blocks) →
     _extract_bullet_x_positions blocks = []).
Proof.
  split.
  - exists (sort_hits (page_hits blocks)). split; [done|]. split.
    + rewrite sort_hits_perm. by rewrite page_hits_text_lines.
    + apply sort_hits_sorted.
  - intros Hno. unfold _extract_bullet_x_positions.
    rewrite page_hits_text_lines, omap_none; [done|].
    eapply Forall_impl; [exact Hno|]. intros line Hline. simpl in Hline.
    destruct (line_hit line) eqn:Hh; [|done].
    exfalso. apply Hline, line_hit_is_Some. by eexists.
Qed.

End Glyphs.
